(** * Pricing core of the subgraph: [src/mappings/pricing.ts]

    A shallow embedding of the USD valuation code (asset registry,
    [valueInUSD], [swapValueInUSD], [updateLatestPrice],
    [updatePoolLiquidity], [updateBptPrice]) over an explicit entity store,
    followed by the properties of the code.

    Modelling conventions.
    - [BigDecimal] is the type of exact rationals [Qc]; [plus], [minus],
      [times] and [div] are the field operations and [gt] is the strict
      order; the rounding of the host's decimal arithmetic is not modelled.
      Every [div] of the source has a divisor that the source itself guards
      to be non-zero (or that is the literal 1 or 2).
    - [BigInt] is [Z]; an [i32] timestamp is a [Z] that is only passed on.
    - [Bytes] and [Address] are byte strings; [toHexString] writes them as
      "0x" followed by two lower-case hexadecimal digits per byte.
      [Address.fromString (b.toHexString ())] reads the same bytes back, so it
      is the identity on the addresses stored in entities.
    - The entity store is one finite map per entity type, keyed by the
      entity id.  An entity loaded under an id carries that id, so [save]
      writes it back under the id it was loaded or created with.
    - A handler is a state transformer that can trap (a failed non-null cast
      or an array index out of range aborts the handler): [M A].
    - The host also aborts [Address.fromString] on a value that is not 20
      bytes wide, and rounds every decimal result to 34 significant digits.
      A statement that depends on either says so with [wellFormedPool],
      [isAddress] or [fits34]. *)

From Stdlib Require Import QArith Qcanon.
From Stdlib.Strings Require Import Ascii String Byte.
From stdpp Require Import base numbers strings list gmap fin_maps pretty.

Local Open Scope Z_scope.
Local Open Scope string_scope.

(** ** Numbers *)

Definition BigDecimal : Type := Qc.
Definition BigInt : Type := Z.

(** Modelled from the spec: [ZERO_BD] and [ONE_BD] of [helpers/constants],
    which is not part of the sources: the decimals zero and one ("divide by
    1"). *)
Definition ZERO_BD : BigDecimal := 0%Qc.
Definition ONE_BD : BigDecimal := 1%Qc.

(** [BigDecimal.fromString ('2')]. *)
Definition TWO_BD : BigDecimal := Q2Qc (2 # 1).

Definition BD_plus (x y : BigDecimal) : BigDecimal := (x + y)%Qc.
Definition BD_minus (x y : BigDecimal) : BigDecimal := (x - y)%Qc.
Definition BD_times (x y : BigDecimal) : BigDecimal := (x * y)%Qc.
Definition BD_div (x y : BigDecimal) : BigDecimal := (x / y)%Qc.
Definition BD_gt (x y : BigDecimal) : bool := bool_decide (y < x)%Qc.
Definition BD_equals (x y : BigDecimal) : bool := bool_decide (x = y).

Definition BD_of_Z (n : Z) : BigDecimal := Q2Qc (inject_Z n).

(** ** Bytes, addresses and their textual form *)

Definition Bytes : Type := list Byte.byte.
Definition Address : Type := list Byte.byte.

Definition hexDigit (n : N) : ascii :=
  match n with
  | 0%N => "0" | 1%N => "1" | 2%N => "2" | 3%N => "3"
  | 4%N => "4" | 5%N => "5" | 6%N => "6" | 7%N => "7"
  | 8%N => "8" | 9%N => "9" | 10%N => "a" | 11%N => "b"
  | 12%N => "c" | 13%N => "d" | 14%N => "e" | _ => "f"
  end%char.

Definition hexHi (b : Byte.byte) : ascii := hexDigit (Byte.to_N b / 16).
Definition hexLo (b : Byte.byte) : ascii := hexDigit (Byte.to_N b mod 16).

Fixpoint hexDigits (bs : list Byte.byte) : string :=
  match bs with
  | [] => ""
  | b :: bs' => String (hexHi b) (String (hexLo b) (hexDigits bs'))
  end.

Definition toHexString (bs : list Byte.byte) : string := "0x" +:+ hexDigits bs.

Global Instance byte_eq_dec : EqDecision Byte.byte.
Proof.
  intros a b. destruct (Byte.eqb a b) eqn:E.
  - left. by apply Byte.byte_dec_bl.
  - right. intros ->. by rewrite (Byte.byte_dec_lb eq_refl) in E.
Defined.

(** [==] on [Address] and [Bytes] compares the bytes. *)
Definition Address_eq (a b : Address) : bool := bool_decide (a = b).

(** Modelled from the spec: [ZERO_ADDRESS] of [helpers/constants], the
    sentinel "none" address: twenty zero bytes. *)
Definition ZERO_ADDRESS : Address := replicate 20 Byte.x00.

(** ** Entities *)

Record Token := mkToken {
  latestUSDPrice : option BigDecimal;
  latestPrice : option string
}.

Record LatestPrice := mkLatestPrice {
  lp_asset : Bytes;
  lp_pricingAsset : Bytes;
  lp_block : BigInt;
  lp_poolId : string;
  lp_price : BigDecimal
}.

Record TokenPrice := mkTokenPrice {
  tp_asset : Bytes;
  tp_pricingAsset : Bytes;
  tp_block : BigInt;
  tp_poolId : string;
  tp_price : BigDecimal
}.

Record Pool := mkPool {
  poolType : string;
  address : Bytes;
  tokensList : list Bytes;
  totalShares : BigDecimal;
  totalLiquidity : BigDecimal
}.

Record PoolToken := mkPoolToken {
  balance : BigDecimal
}.

Record PoolHistoricalLiquidity := mkPoolHistoricalLiquidity {
  phl_poolId : string;
  phl_pricingAsset : Bytes;
  phl_block : BigInt;
  poolTotalShares : BigDecimal;
  poolLiquidity : BigDecimal;
  poolShareValue : BigDecimal
}.

Record Balancer := mkBalancer {
  vault_totalLiquidity : BigDecimal
}.

Record BalancerSnapshot := mkBalancerSnapshot {
  bs_vault : string;
  bs_totalLiquidity : BigDecimal
}.

Record PoolSnapshot := mkPoolSnapshot {
  ps_pool : string;
  ps_timestamp : Z;
  ps_totalShares : BigDecimal;
  ps_totalLiquidity : BigDecimal
}.

(** ** The entity store *)

Record Store := mkStore {
  pools : gmap string Pool;
  poolTokens : gmap (string * string) PoolToken;
  tokens : gmap string Token;
  latestPrices : gmap string LatestPrice;
  poolHistoricalLiquidities : gmap string PoolHistoricalLiquidity;
  balancers : gmap string Balancer;
  balancerSnapshots : gmap string BalancerSnapshot;
  poolSnapshots : gmap string PoolSnapshot
}.

Definition emptyStore : Store :=
  mkStore ∅ ∅ ∅ ∅ ∅ ∅ ∅ ∅.

(** ** Handlers: state passing with traps *)

Definition M (A : Type) : Type := Store → option (A * Store).

Definition ret {A} (a : A) : M A := λ st, Some (a, st).
Definition trap {A} : M A := λ _, None.
Definition bind {A B} (m : M A) (k : A → M B) : M B :=
  λ st, match m st with
        | Some (a, st') => k a st'
        | None => None
        end.
Definition gets {A} (f : Store → A) : M A := λ st, Some (f st, st).
Definition modify (f : Store → Store) : M unit := λ st, Some (tt, f st).

Notation "'let*' x ':=' m 'in' k" := (bind m (λ x, k))
  (at level 10, x name, m at level 100, k at level 200, only parsing).
Notation "m ';;;' k" := (bind m (λ _, k))
  (at level 100, k at level 200, right associativity, only parsing).

(** The value and the final store of a run. *)
Definition eval {A} (m : M A) (st : Store) : option A := fst <$> m st.
Definition exec {A} (m : M A) (st : Store) : option Store := snd <$> m st.

(** Field updates of the store. *)
Definition set_pools (f : gmap string Pool → gmap string Pool) (st : Store) : Store :=
  mkStore (f (pools st)) (poolTokens st) (tokens st) (latestPrices st)
    (poolHistoricalLiquidities st) (balancers st) (balancerSnapshots st)
    (poolSnapshots st).
Definition set_tokens (f : gmap string Token → gmap string Token) (st : Store) : Store :=
  mkStore (pools st) (poolTokens st) (f (tokens st)) (latestPrices st)
    (poolHistoricalLiquidities st) (balancers st) (balancerSnapshots st)
    (poolSnapshots st).
Definition set_latestPrices
    (f : gmap string LatestPrice → gmap string LatestPrice) (st : Store) : Store :=
  mkStore (pools st) (poolTokens st) (tokens st) (f (latestPrices st))
    (poolHistoricalLiquidities st) (balancers st) (balancerSnapshots st)
    (poolSnapshots st).
Definition set_poolHistoricalLiquidities
    (f : gmap string PoolHistoricalLiquidity → gmap string PoolHistoricalLiquidity)
    (st : Store) : Store :=
  mkStore (pools st) (poolTokens st) (tokens st) (latestPrices st)
    (f (poolHistoricalLiquidities st)) (balancers st) (balancerSnapshots st)
    (poolSnapshots st).
Definition set_balancers (f : gmap string Balancer → gmap string Balancer) (st : Store) : Store :=
  mkStore (pools st) (poolTokens st) (tokens st) (latestPrices st)
    (poolHistoricalLiquidities st) (f (balancers st)) (balancerSnapshots st)
    (poolSnapshots st).
Definition set_balancerSnapshots
    (f : gmap string BalancerSnapshot → gmap string BalancerSnapshot) (st : Store) : Store :=
  mkStore (pools st) (poolTokens st) (tokens st) (latestPrices st)
    (poolHistoricalLiquidities st) (balancers st) (f (balancerSnapshots st))
    (poolSnapshots st).
Definition set_poolSnapshots
    (f : gmap string PoolSnapshot → gmap string PoolSnapshot) (st : Store) : Store :=
  mkStore (pools st) (poolTokens st) (tokens st) (latestPrices st)
    (poolHistoricalLiquidities st) (balancers st) (balancerSnapshots st)
    (f (poolSnapshots st)).

(** [Entity.load (id)] and [entity.save ()], per entity type. *)
Definition Pool_load (id : string) : M (option Pool) := gets (λ st, pools st !! id).
Definition Pool_save (id : string) (p : Pool) : M unit := modify (set_pools <[id := p]>).
Definition Token_load (id : string) : M (option Token) := gets (λ st, tokens st !! id).
Definition Token_save (id : string) (t : Token) : M unit := modify (set_tokens <[id := t]>).
Definition LatestPrice_load (id : string) : M (option LatestPrice) :=
  gets (λ st, latestPrices st !! id).
Definition LatestPrice_save (id : string) (lp : LatestPrice) : M unit :=
  modify (set_latestPrices <[id := lp]>).
Definition PoolHistoricalLiquidity_save (id : string) (phl : PoolHistoricalLiquidity) : M unit :=
  modify (set_poolHistoricalLiquidities <[id := phl]>).
Definition Balancer_load (id : string) : M (option Balancer) :=
  gets (λ st, balancers st !! id).
Definition Balancer_save (id : string) (v : Balancer) : M unit :=
  modify (set_balancers <[id := v]>).
Definition BalancerSnapshot_load (id : string) : M (option BalancerSnapshot) :=
  gets (λ st, balancerSnapshots st !! id).
Definition BalancerSnapshot_save (id : string) (s : BalancerSnapshot) : M unit :=
  modify (set_balancerSnapshots <[id := s]>).

(** ** Helpers imported by [pricing.ts] *)

(** Modelled from the spec: [getToken] of [helpers/misc], which is not part
    of the sources.  A Token is identified by its address and its
    [latestUSDPrice] is "absent until first observation"; the callers use the
    result without a null check, so the Token is loaded, or created (and
    saved) with both optional fields unset when the store has none. *)
Definition createToken (tokenAddress : Address) : M Token :=
  let token := mkToken None None in
  Token_save (toHexString tokenAddress) token ;;;
  ret token.

Definition getToken (tokenAddress : Address) : M Token :=
  let* token := Token_load (toHexString tokenAddress) in
  match token with
  | Some token => ret token
  | None => createToken tokenAddress
  end.

(** Modelled from the spec: [loadPoolToken] of [helpers/misc], which is not
    part of the sources: "token balances are held in a separate PoolToken
    record per (poolId, tokenAddress)"; absent when no balance was recorded. *)
Definition loadPoolToken (poolId : string) (tokenAddress : Address) : M (option PoolToken) :=
  gets (λ st, poolTokens st !! (poolId, toHexString tokenAddress)).

(** ** The code of [pricing.ts] *)

(** The loop shared by [isPricingAsset] and [isUSDStable] (and the
    [includes] of arrays): true at the first entry equal to the asset. *)
Fixpoint includes (assets : list Address) (asset : Address) : bool :=
  match assets with
  | [] => false
  | a :: rest => if Address_eq a asset then true else includes rest asset
  end.

Definition getLatestPriceId (tokenAddress pricingAsset : Address) : string :=
  (toHexString tokenAddress +:+ "-") +:+ toHexString pricingAsset.

Definition getPoolHistoricalLiquidityId
    (poolId : string) (tokenAddress : Address) (block : BigInt) : string :=
  (((poolId +:+ "-") +:+ toHexString tokenAddress) +:+ "-") +:+ pretty block.

(** The configuration that [pricing.ts] imports and that is not part of the
    sources: the registry constants of [helpers/constants] (the
    preference-ordered pricing assets and the USD-stable assets), the
    pool-variant capability query of [helpers/pools], and the snapshot
    collaborators of [helpers/misc] (the PoolSnapshot entities after
    [createPoolSnapshot (pool, timestamp)], and the id of the time bucket of
    a vault snapshot). *)
Record Config := mkConfig {
  PRICING_ASSETS : list Address;
  USD_STABLE_ASSETS : list Address;
  hasVirtualSupply : Pool → bool;
  poolSnapshotsAfter : string → Pool → Z → Store → gmap string PoolSnapshot;
  balancerSnapshotId : string → Z → string
}.

Section Pricing.

Context (cfg : Config).

(** Modelled from the spec: [createPoolSnapshot] is the "external snapshot
    collaborator for the pool at timestamp"; it writes PoolSnapshot
    entities only. *)
Definition createPoolSnapshot (poolId : string) (pool : Pool) (timestamp : Z) : M unit :=
  λ st, Some (tt, set_poolSnapshots (λ _, poolSnapshotsAfter cfg poolId pool timestamp st) st).

(** Modelled from the spec: [getBalancerSnapshot] returns the
    "time-bucketed copy of GlobalAggregate.totalLiquidity, one per snapshot
    period, upserted by timestamp bucket": loaded, or created for the
    bucket of [timestamp]. *)
Definition getBalancerSnapshot (vaultId : string) (timestamp : Z)
    : M (string * BalancerSnapshot) :=
  let id := balancerSnapshotId cfg vaultId timestamp in
  let* snapshot := BalancerSnapshot_load id in
  match snapshot with
  | Some snapshot => ret (id, snapshot)
  | None =>
      let snapshot := mkBalancerSnapshot vaultId ZERO_BD in
      BalancerSnapshot_save id snapshot ;;;
      ret (id, snapshot)
  end.

Definition isPricingAsset (asset : Address) : bool := includes (PRICING_ASSETS cfg) asset.

Definition isUSDStable (asset : Address) : bool := includes (USD_STABLE_ASSETS cfg) asset.

Fixpoint firstIncluded (preferred assets : list Address) : Address :=
  match preferred with
  | [] => ZERO_ADDRESS
  | p :: rest => if includes assets p then p else firstIncluded rest assets
  end.

Definition getPreferentialPricingAsset (assets : list Address) : Address :=
  firstIncluded (PRICING_ASSETS cfg) assets.

Definition valueInUSD (value : BigDecimal) (asset : Address) : M BigDecimal :=
  let usdValue := ZERO_BD in
  if isUSDStable asset then ret value
  else
    let* token := getToken asset in
    match latestUSDPrice token with
    | Some latestUSDPrice => ret (BD_times value latestUSDPrice)
    | None => ret usdValue
    end.

Definition updateBptPrice (pool : Pool) : M unit :=
  if BD_equals (totalShares pool) ZERO_BD then ret tt
  else
    let bptAddress := address pool in
    let* bptToken := getToken bptAddress in
    let bptToken :=
      mkToken (Some (BD_div (totalLiquidity pool) (totalShares pool)))
              (latestPrice bptToken) in
    Token_save (toHexString bptAddress) bptToken.

Definition swapValueInUSD
    (tokenInAddress : Address) (tokenAmountIn : BigDecimal)
    (tokenOutAddress : Address) (tokenAmountOut : BigDecimal) : M BigDecimal :=
  if isUSDStable tokenOutAddress then
    valueInUSD tokenAmountOut tokenOutAddress
  else if isUSDStable tokenInAddress then
    valueInUSD tokenAmountIn tokenInAddress
  else if isPricingAsset tokenInAddress && negb (isPricingAsset tokenOutAddress) then
    valueInUSD tokenAmountIn tokenInAddress
  else if isPricingAsset tokenOutAddress && negb (isPricingAsset tokenInAddress) then
    valueInUSD tokenAmountOut tokenOutAddress
  else
    let* tokenInSwapValueUSD := valueInUSD tokenAmountIn tokenInAddress in
    let* tokenOutSwapValueUSD := valueInUSD tokenAmountOut tokenOutAddress in
    let divisor :=
      if BD_gt tokenInSwapValueUSD ZERO_BD && BD_gt tokenOutSwapValueUSD ZERO_BD
      then TWO_BD else ONE_BD in
    ret (BD_div (BD_plus tokenInSwapValueUSD tokenOutSwapValueUSD) divisor).

Definition updateLatestPrice (tokenPrice : TokenPrice) : M unit :=
  let tokenAddress := tp_asset tokenPrice in
  let pricingAsset := tp_pricingAsset tokenPrice in
  let latestPriceId := getLatestPriceId tokenAddress pricingAsset in
  let* latestPrice := LatestPrice_load latestPriceId in
  let asset0 :=
    match latestPrice with
    | None => tp_asset tokenPrice
    | Some latestPrice => lp_asset latestPrice
    end in
  let pricingAsset0 :=
    match latestPrice with
    | None => tp_pricingAsset tokenPrice
    | Some latestPrice => lp_pricingAsset latestPrice
    end in
  let latestPrice :=
    mkLatestPrice asset0 pricingAsset0
      (tp_block tokenPrice) (tp_poolId tokenPrice) (tp_price tokenPrice) in
  LatestPrice_save latestPriceId latestPrice ;;;
  let* token := getToken tokenAddress in
  let pricingAssetAddress := tp_pricingAsset tokenPrice in
  let* tokenInUSD := valueInUSD (tp_price tokenPrice) pricingAssetAddress in
  let token := mkToken (Some tokenInUSD) (Some latestPriceId) in
  Token_save (toHexString tokenAddress) token.

(** The body of the [for] loop of [updatePoolLiquidity]: one constituent
    token, from the running total to the next one. *)
Definition accumulateToken (poolId : string) (pool : Pool)
    (poolValueUSD : BigDecimal) (tokenAddress : Address) : M BigDecimal :=
  let* poolToken := loadPoolToken poolId tokenAddress in
  match poolToken with
  | None => ret poolValueUSD
  | Some poolToken =>
      let poolTokenQuantity := balance poolToken in
      let* token := getToken tokenAddress in
      match latestUSDPrice token with
      | None => ret poolValueUSD
      | Some tokenLatestUSDPrice =>
          if hasVirtualSupply cfg pool && Address_eq (address pool) tokenAddress
          then ret poolValueUSD
          else
            let poolTokenValue := BD_times tokenLatestUSDPrice poolTokenQuantity in
            ret (BD_plus poolValueUSD poolTokenValue)
      end
  end.

(** The [for] loop itself, over [tokensList] from index 0. *)
Fixpoint accumulate (poolId : string) (pool : Pool)
    (tokensList : list Bytes) (poolValueUSD : BigDecimal) : M BigDecimal :=
  match tokensList with
  | [] => ret poolValueUSD
  | tokenAddress :: rest =>
      let* poolValueUSD := accumulateToken poolId pool poolValueUSD tokenAddress in
      accumulate poolId pool rest poolValueUSD
  end.

(** [USD_STABLE_ASSETS[0]]: an index out of range traps. *)
Definition firstUSDStable : M Address :=
  match USD_STABLE_ASSETS cfg !! 0%nat with
  | Some a => ret a
  | None => trap
  end.

(** [Balancer.load ('2') as Balancer]: the cast of an absent entity traps. *)
Definition loadVault : M Balancer :=
  let* vault := Balancer_load "2" in
  match vault with
  | Some vault => ret vault
  | None => trap
  end.

Definition updatePoolLiquidity (poolId : string) (block : BigInt) (timestamp : Z) : M bool :=
  let* pool := Pool_load poolId in
  match pool with
  | None => ret false
  | Some pool =>
      let tokensList := tokensList pool in
      if (length tokensList <? 2)%nat then ret false
      else
        let* poolValueUSD := accumulate poolId pool tokensList ZERO_BD in
        let oldPoolLiquidity := totalLiquidity pool in
        let newPoolLiquidity := poolValueUSD in
        let liquidityChange := BD_minus newPoolLiquidity oldPoolLiquidity in
        if negb (eqb (BD_gt poolValueUSD ZERO_BD) (BD_gt newPoolLiquidity ZERO_BD))
        then ret false
        else
          (* Take snapshot of pool state *)
          let* stable0 := firstUSDStable in
          let phlId := getPoolHistoricalLiquidityId poolId stable0 block in
          let phl :=
            mkPoolHistoricalLiquidity poolId stable0 block (totalShares pool)
              poolValueUSD
              (if BD_gt (totalShares pool) ZERO_BD
               then BD_div poolValueUSD (totalShares pool) else ZERO_BD) in
          PoolHistoricalLiquidity_save phlId phl ;;;
          (* Update pool stats *)
          let pool :=
            mkPool (poolType pool) (address pool) (tokensList)
              (totalShares pool) newPoolLiquidity in
          Pool_save poolId pool ;;;
          (* update BPT price *)
          updateBptPrice pool ;;;
          (* Create or update pool daily snapshot *)
          createPoolSnapshot poolId pool timestamp ;;;
          (* Update global stats *)
          let* vault := loadVault in
          let vault :=
            mkBalancer (BD_plus (vault_totalLiquidity vault) liquidityChange) in
          Balancer_save "2" vault ;;;
          let* vaultSnapshot := getBalancerSnapshot "2" timestamp in
          let snapshotId := fst vaultSnapshot in
          let vaultSnapshot :=
            mkBalancerSnapshot (bs_vault (snd vaultSnapshot)) (vault_totalLiquidity vault) in
          BalancerSnapshot_save snapshotId vaultSnapshot ;;;
          ret true
  end.

End Pricing.

(** ** Auxiliary notions for the statements *)

(** The recorded USD price of an asset: absent when the store has no Token
    for it or when the Token's [latestUSDPrice] is unset. *)
Definition recordedUSDPrice (st : Store) (asset : Address) : option BigDecimal :=
  tokens st !! toHexString asset ≫= latestUSDPrice.

(** [st'] is [st] up to Tokens created by [getToken]: every entity map other
    than the Tokens is the same, Tokens are only added, and every recorded
    price is the same. *)
Record freshTokensOnly (st st' : Store) : Prop := mkFreshTokensOnly {
  fto_pools : pools st' = pools st;
  fto_poolTokens : poolTokens st' = poolTokens st;
  fto_latestPrices : latestPrices st' = latestPrices st;
  fto_phls : poolHistoricalLiquidities st' = poolHistoricalLiquidities st;
  fto_balancers : balancers st' = balancers st;
  fto_balancerSnapshots : balancerSnapshots st' = balancerSnapshots st;
  fto_poolSnapshots : poolSnapshots st' = poolSnapshots st;
  fto_tokens : ∀ id, tokens st !! id = None ∨ tokens st' !! id = tokens st !! id;
  fto_prices : ∀ id, tokens st' !! id ≫= latestUSDPrice = tokens st !! id ≫= latestUSDPrice
}.

(** The [asset] and [pricingAsset] fields that the LatestPrice record of an
    observation carries: those of the stored record when there is one, and
    those of the observation when the record is created. *)
Definition fieldsAtCreation (st : Store) (tokenPrice : TokenPrice) : Bytes * Bytes :=
  match latestPrices st !! getLatestPriceId (tp_asset tokenPrice) (tp_pricingAsset tokenPrice) with
  | Some latestPrice => (lp_asset latestPrice, lp_pricingAsset latestPrice)
  | None => (tp_asset tokenPrice, tp_pricingAsset tokenPrice)
  end.

(** What one constituent token adds to the running total: nothing without a
    balance record, without a recorded price, or when it is the pool's own
    share token under virtual supply; otherwise its recorded price times its
    balance. *)
Definition addedValue (cfg : Config) (st : Store) (poolId : string) (pool : Pool)
    (tokenAddress : Address) : BigDecimal :=
  match poolTokens st !! (poolId, toHexString tokenAddress) with
  | None => ZERO_BD
  | Some poolToken =>
      match recordedUSDPrice st tokenAddress with
      | None => ZERO_BD
      | Some price =>
          if hasVirtualSupply cfg pool && Address_eq (address pool) tokenAddress
          then ZERO_BD
          else BD_times price (balance poolToken)
      end
  end.

(** [st'] is [st] up to its Tokens: every other entity map is the same. *)
Record sameButTokens (st st' : Store) : Prop := mkSameButTokens {
  sbt_pools : pools st' = pools st;
  sbt_poolTokens : poolTokens st' = poolTokens st;
  sbt_latestPrices : latestPrices st' = latestPrices st;
  sbt_phls : poolHistoricalLiquidities st' = poolHistoricalLiquidities st;
  sbt_balancers : balancers st' = balancers st;
  sbt_balancerSnapshots : balancerSnapshots st' = balancerSnapshots st;
  sbt_poolSnapshots : poolSnapshots st' = poolSnapshots st
}.

(** The USD total that the loop of [updatePoolLiquidity] reaches from zero
    over the pool's [tokensList], read off the store. *)
Definition accumulatedValue (cfg : Config) (st : Store) (poolId : string) (pool : Pool)
    : BigDecimal :=
  foldl (λ total tokenAddress, BD_plus total (addedValue cfg st poolId pool tokenAddress))
        ZERO_BD (tokensList pool).

(** The snapshot row and the Pool that the commit path of
    [updatePoolLiquidity] saves for a new total. *)
Definition committedRow (poolId : string) (stable0 : Address) (block : BigInt)
    (pool : Pool) (newTotal : BigDecimal) : PoolHistoricalLiquidity :=
  mkPoolHistoricalLiquidity poolId stable0 block (totalShares pool) newTotal
    (if bool_decide (0 < totalShares pool)%Qc
     then (newTotal / totalShares pool)%Qc else 0%Qc).

Definition committedPool (pool : Pool) (newTotal : BigDecimal) : Pool :=
  mkPool (poolType pool) (address pool) (tokensList pool) (totalShares pool) newTotal.

(** ** A concrete configuration and concrete stores

    One USD-stable asset, one pricing asset, pools without virtual supply,
    and day buckets for the snapshots. *)

Definition tokenA : Address := [Byte.x0a].
Definition tokenB : Address := [Byte.x0b].
Definition tokenC : Address := [Byte.x0c].
Definition tokenD : Address := [Byte.x0d].
Definition stableAsset : Address := [Byte.x55].
Definition wrappedNative : Address := [Byte.xee].

Definition dayBucket (prefix : string) (timestamp : Z) : string :=
  (prefix +:+ "-") +:+ pretty (timestamp / 86400)%Z.

Definition exampleConfig : Config :=
  mkConfig [wrappedNative; stableAsset] [stableAsset] (λ _, false)
    (λ poolId pool timestamp st,
       <[dayBucket poolId timestamp :=
           mkPoolSnapshot poolId timestamp (totalShares pool) (totalLiquidity pool)]>
         (poolSnapshots st))
    dayBucket.

(** Pool "p1" holds 10 A and 5 B, pool "p2" holds 3 C and 1 D; A is priced at
    $2, B at $4, C at $5 and D at $5.  Before the valuation "p1" stands at
    $30 and "p2" at $5, and the vault at $100. *)
Definition pool1 : Pool :=
  mkPool "Weighted" [Byte.xf1] [tokenA; tokenB] (BD_of_Z 20) (BD_of_Z 30).
Definition pool2 : Pool :=
  mkPool "Weighted" [Byte.xf2] [tokenC; tokenD] (BD_of_Z 8) (BD_of_Z 5).

Definition examplePoolTokens : gmap (string * string) PoolToken :=
  {[ ("p1", toHexString tokenA) := mkPoolToken (BD_of_Z 10);
     ("p1", toHexString tokenB) := mkPoolToken (BD_of_Z 5);
     ("p2", toHexString tokenC) := mkPoolToken (BD_of_Z 3);
     ("p2", toHexString tokenD) := mkPoolToken (BD_of_Z 1) ]}.

Definition exampleStore : Store :=
  mkStore {[ "p1" := pool1; "p2" := pool2 ]} examplePoolTokens
    {[ toHexString tokenA := mkToken (Some (BD_of_Z 2)) None;
       toHexString tokenB := mkToken (Some (BD_of_Z 4)) None;
       toHexString tokenC := mkToken (Some (BD_of_Z 5)) None;
       toHexString tokenD := mkToken (Some (BD_of_Z 5)) None ]}
    ∅ ∅ {[ "2" := mkBalancer (BD_of_Z 100) ]} ∅ ∅.

(** Pool "p1" stands at $40 and the Tokens of A and B have no price. *)
Definition pool1At40 : Pool :=
  mkPool "Weighted" [Byte.xf1] [tokenA; tokenB] (BD_of_Z 20) (BD_of_Z 40).

Definition unpricedStore : Store :=
  mkStore {[ "p1" := pool1At40 ]} examplePoolTokens
    {[ toHexString tokenA := mkToken None None;
       toHexString tokenB := mkToken None None ]}
    ∅ ∅ {[ "2" := mkBalancer (BD_of_Z 100) ]} ∅ ∅.

(** A pool with a single token. *)
Definition singleTokenPool : Pool :=
  mkPool "Weighted" [Byte.xf3] [tokenA] (BD_of_Z 1) (BD_of_Z 7).

Definition singleTokenStore : Store :=
  mkStore {[ "p3" := singleTokenPool ]}
    {[ ("p3", toHexString tokenA) := mkPoolToken (BD_of_Z 10) ]}
    {[ toHexString tokenA := mkToken (Some (BD_of_Z 2)) None ]}
    ∅ ∅ {[ "2" := mkBalancer (BD_of_Z 100) ]} ∅ ∅.

(** A pool that holds 10 units of the USD-stable asset, whose Token has no
    recorded price, and 5 B at $4. *)
Definition stablePool : Pool :=
  mkPool "Weighted" [Byte.xf4] [stableAsset; tokenB] (BD_of_Z 1) (BD_of_Z 0).

Definition stablePoolStore : Store :=
  mkStore {[ "p4" := stablePool ]}
    {[ ("p4", toHexString stableAsset) := mkPoolToken (BD_of_Z 10);
       ("p4", toHexString tokenB) := mkPoolToken (BD_of_Z 5) ]}
    {[ toHexString tokenB := mkToken (Some (BD_of_Z 4)) None ]}
    ∅ ∅ {[ "2" := mkBalancer (BD_of_Z 100) ]} ∅ ∅.

(** The store that a run leaves; the starting store when the run traps. *)
Definition storeAfter {A} (m : M A) (st : Store) : Store :=
  match m st with
  | Some (_, st') => st'
  | None => st
  end.

(** The example store after the valuation of "p1". *)
Definition afterP1 : Store :=
  storeAfter (updatePoolLiquidity exampleConfig "p1" 7 100000) exampleStore.

(** [getToken] on the Token map: a Token without price is added under an id
    that has none. *)
Definition withToken (id : string) (m : gmap string Token) : gmap string Token :=
  match m !! id with
  | Some _ => m
  | None => <[id := mkToken None None]> m
  end.

(** An observation of A priced at 3 in the USD-stable asset. *)
Definition exampleObservation : TokenPrice :=
  mkTokenPrice tokenA stableAsset 7 "p1" (BD_of_Z 3).

(** ** What the host adds: address widths and decimal precision

    The embedding above reads [Address.fromString (x.toHexString ())] as the
    identity and the decimals as exact rationals.  The host aborts the
    conversion unless [x] has 20 bytes, and keeps a decimal to 34
    significant digits.  The statements that depend on either say so through
    the two notions below. *)

(** The bytes of an address: [Address.fromString] takes the textual form of
    exactly 20 bytes. *)
Definition isAddress (bytes : Bytes) : Prop := length bytes = 20%nat.

(** The conversions of a valuation of [pool] succeed: every listed token is
    an address (line 32), and so is the pool's own address when
    [updateBptPrice] passes its guard (line 116). *)
Definition wellFormedPool (pool : Pool) : Prop :=
  Forall isAddress (tokensList pool) ∧
  (totalShares pool = ZERO_BD ∨ isAddress (address pool)).




(** ** Concrete stores with 20-byte addresses *)

Definition address20 (last : Byte.byte) : Address :=
  (replicate 19 Byte.x00 ++ [last])%list.

Definition wideTokenA : Address := address20 Byte.x0a.
Definition wideTokenB : Address := address20 Byte.x0b.
Definition wideTokenC : Address := address20 Byte.x0c.
Definition wideTokenD : Address := address20 Byte.x0d.
Definition wideStable : Address := address20 Byte.x55.

Definition wideConfig : Config :=
  mkConfig [wideStable] [wideStable] (hasVirtualSupply exampleConfig)
    (poolSnapshotsAfter exampleConfig) dayBucket.

Definition widePoolTokens : gmap (string * string) PoolToken :=
  {[ ("p1", toHexString wideTokenA) := mkPoolToken (BD_of_Z 10);
     ("p1", toHexString wideTokenB) := mkPoolToken (BD_of_Z 5);
     ("p2", toHexString wideTokenC) := mkPoolToken (BD_of_Z 3);
     ("p2", toHexString wideTokenD) := mkPoolToken (BD_of_Z 1) ]}.

(** Pool "p1" stands at $40 and no token has a price; with and without the
    Balancer singleton. *)
Definition widePoolAt40 : Pool :=
  mkPool "Weighted" (address20 Byte.xf1) [wideTokenA; wideTokenB] (BD_of_Z 20) (BD_of_Z 40).

Definition wideUnpricedStore : Store :=
  mkStore {[ "p1" := widePoolAt40 ]} widePoolTokens ∅ ∅ ∅
    {[ "2" := mkBalancer (BD_of_Z 100) ]} ∅ ∅.

Definition wideStoreWithoutVault : Store :=
  mkStore {[ "p1" := widePoolAt40 ]} widePoolTokens ∅ ∅ ∅ ∅ ∅ ∅.

(** Pool "p1" holds 10 A at $2 and 5 B at $4 and stands at $30; pool "p2"
    holds 3 C at $5 and 1 D at $5 and stands at $5: a valuation raises the
    one by $10 and the other by $15.  The Balancer singleton stands at
    [vault]. *)
Definition widePool1 : Pool :=
  mkPool "Weighted" (address20 Byte.xf1) [wideTokenA; wideTokenB] (BD_of_Z 20) (BD_of_Z 30).
Definition widePool2 : Pool :=
  mkPool "Weighted" (address20 Byte.xf2) [wideTokenC; wideTokenD] (BD_of_Z 8) (BD_of_Z 5).

Definition widePricedStore (vault : BigDecimal) : Store :=
  mkStore {[ "p1" := widePool1; "p2" := widePool2 ]} widePoolTokens
    {[ toHexString wideTokenA := mkToken (Some (BD_of_Z 2)) None;
       toHexString wideTokenB := mkToken (Some (BD_of_Z 4)) None;
       toHexString wideTokenC := mkToken (Some (BD_of_Z 5)) None;
       toHexString wideTokenD := mkToken (Some (BD_of_Z 5)) None ]}
    ∅ ∅ {[ "2" := mkBalancer vault ]} ∅ ∅.


(** The value of a hexadecimal digit, for reading [toHexString] back. *)
Definition hexValue (c : ascii) : N :=
  match c with
  | "0" => 0 | "1" => 1 | "2" => 2 | "3" => 3 | "4" => 4 | "5" => 5
  | "6" => 6 | "7" => 7 | "8" => 8 | "9" => 9 | "a" => 10 | "b" => 11
  | "c" => 12 | "d" => 13 | "e" => 14 | _ => 15
  end%char%N.

(** * Properties *)

(** ** The textual form of addresses and the composite ids *)

Lemma hex_byte_roundtrip (b : Byte.byte) :
  Byte.of_N (hexValue (hexHi b) * 16 + hexValue (hexLo b)) = Some b.
Proof. destruct b; reflexivity. Qed.

Lemma hex_byte_inj (b b' : Byte.byte) :
  hexHi b = hexHi b' → hexLo b = hexLo b' → b = b'.
Proof.
  intros Hhi Hlo. pose proof (hex_byte_roundtrip b) as H.
  rewrite Hhi, Hlo, hex_byte_roundtrip in H. congruence.
Qed.

Lemma hexHi_not_dash (b : Byte.byte) : hexHi b ≠ "-"%char.
Proof. destruct b; discriminate. Qed.

Lemma append_String (c : ascii) (s t : string) :
  String c s +:+ t = String c (s +:+ t).
Proof. reflexivity. Qed.

Lemma append_empty (t : string) : "" +:+ t = t.
Proof. reflexivity. Qed.

Lemma hexDigits_append_dash (bs : list Byte.byte) (rest : string) :
  (hexDigits bs +:+ "-") +:+ rest = hexDigits bs +:+ String "-" rest.
Proof.
  induction bs as [|b bs IH]; simpl; [done|].
  by rewrite !append_String, IH.
Qed.

Lemma hexDigits_dash_inj (bs bs' : list Byte.byte) (rest rest' : string) :
  hexDigits bs +:+ String "-" rest = hexDigits bs' +:+ String "-" rest' →
  bs = bs' ∧ rest = rest'.
Proof.
  revert bs'. induction bs as [|b bs IH]; intros [|b' bs']; simpl;
    rewrite ?append_String, ?append_empty; intros H.
  - by injection H.
  - injection H as Hc _. by destruct (hexHi_not_dash b').
  - injection H as Hc _. by destruct (hexHi_not_dash b).
  - injection H as Hhi Hlo Hrest. destruct (IH _ Hrest) as [-> ->].
    by rewrite (hex_byte_inj b b' Hhi Hlo).
Qed.

Lemma toHexString_inj (bs bs' : list Byte.byte) :
  toHexString bs = toHexString bs' → bs = bs'.
Proof.
  unfold toHexString. rewrite !append_String, !append_empty. intros [= H].
  assert (hexDigits bs +:+ String "-" "" = hexDigits bs' +:+ String "-" "") as H'
    by by rewrite H.
  by destruct (hexDigits_dash_inj _ _ _ _ H').
Qed.

(** Two pairs of addresses with the same [getLatestPriceId] are the same
    pair: a hexadecimal digit is never the separator. *)
Lemma getLatestPriceId_inj (a p a' p' : Address) :
  getLatestPriceId a p = getLatestPriceId a' p' → a = a' ∧ p = p'.
Proof.
  unfold getLatestPriceId, toHexString.
  rewrite !append_String, !append_empty, !hexDigits_append_dash.
  intros [= H]. destruct (hexDigits_dash_inj _ _ _ _ H) as [-> Hp].
  split; [done|]. by apply toHexString_inj.
Qed.

(** ** Valuation *)

Section Properties.

Context (cfg : Config).

Ltac run := unfold bind, ret, gets, modify, trap; simpl.

(** Ring equations between decimals. *)
Ltac bd_ring := change (@eq BigDecimal) with (@eq Qc); ring.

Lemma freshTokensOnly_refl st : freshTokensOnly st st.
Proof. split; auto. Qed.

Lemma freshTokensOnly_trans st1 st2 st3 :
  freshTokensOnly st1 st2 → freshTokensOnly st2 st3 → freshTokensOnly st1 st3.
Proof.
  intros [] []. split; try congruence.
  intros id. destruct (fto_tokens0 id) as [H|H]; [by left|].
  destruct (fto_tokens1 id) as [H'|H']; [left|right]; congruence.
Qed.

Lemma recordedUSDPrice_fresh st st' asset :
  freshTokensOnly st st' → recordedUSDPrice st' asset = recordedUSDPrice st asset.
Proof. intros []. apply fto_prices0. Qed.

(** [getToken] returns the stored Token, or a new one without a price, and
    changes the store at most by saving that new Token. *)
Lemma getToken_run (asset : Address) (st : Store) :
  ∃ token st',
    getToken asset st = Some (token, st') ∧
    latestUSDPrice token = recordedUSDPrice st asset ∧
    (∀ t, tokens st !! toHexString asset = Some t → token = t ∧ st' = st) ∧
    tokens st' !! toHexString asset = Some token ∧
    freshTokensOnly st st'.
Proof.
  unfold getToken, createToken, Token_load, Token_save, recordedUSDPrice. run.
  destruct (tokens st !! toHexString asset) as [t|] eqn:E; simpl.
  - exists t, st. repeat split; auto; congruence.
  - eexists _, _. split; [reflexivity|]. repeat split; simpl; try done.
    + apply lookup_insert_eq.
    + intros id. destruct (decide (toHexString asset = id)) as [<-|Hne]; [by left|].
      right. by rewrite lookup_insert_ne.
    + intros id. destruct (decide (toHexString asset = id)) as [<-|Hne].
      * by rewrite lookup_insert_eq, E.
      * by rewrite lookup_insert_ne.
Qed.

(** The value of [valueInUSD] from the store, and its effect on the store. *)
Lemma valueInUSD_run (value : BigDecimal) (asset : Address) (st : Store) :
  ∃ st',
    valueInUSD cfg value asset st =
      Some (if isUSDStable cfg asset then value
            else match recordedUSDPrice st asset with
                 | Some price => BD_times value price
                 | None => ZERO_BD
                 end, st') ∧
    freshTokensOnly st st'.
Proof.
  unfold valueInUSD. destruct (isUSDStable cfg asset).
  - exists st. split; [done | apply freshTokensOnly_refl].
  - destruct (getToken_run asset st) as (token & st' & Hrun & Hprice & _ & _ & Hfresh).
    exists st'. unfold bind. rewrite Hrun, <- Hprice.
    split; [|done]. by destruct (latestUSDPrice token).
Qed.

(** The value alone. *)
Lemma valueInUSD_eval (value : BigDecimal) (asset : Address) (st : Store) :
  eval (valueInUSD cfg value asset) st =
    Some (if isUSDStable cfg asset then value
          else match recordedUSDPrice st asset with
               | None => ZERO_BD
               | Some price => BD_times value price
               end).
Proof.
  destruct (valueInUSD_run value asset st) as (st' & Hrun & _).
  unfold eval. rewrite Hrun. simpl. by destruct (recordedUSDPrice st asset).
Qed.

(** C3. [valueInUSD (x, a)] returns on every store, with the value [x]
    itself when [a] is USD-stable; otherwise zero when the Token of [a] has
    no recorded [latestUSDPrice], and [x * latestUSDPrice] when it has one. *)
Theorem valueInUSD_spec (x : BigDecimal) (a : Address) (st : Store) :
  ∃ st',
    valueInUSD cfg x a st =
      Some (if isUSDStable cfg a then x
            else match recordedUSDPrice st a with
                 | None => ZERO_BD
                 | Some latestUSDPrice => BD_times x latestUSDPrice
                 end, st').
Proof.
  destruct (valueInUSD_run x a st) as (st' & Hrun & _).
  exists st'. rewrite Hrun. by destruct (recordedUSDPrice st a).
Qed.

(** C4. [swapValueInUSD] follows the precedence: stable [assetOut], then
    stable [assetIn], then the only pricing asset of the two, and otherwise
    the sum of both sides' USD values, halved exactly when both are strictly
    positive. *)
Theorem swapValueInUSD_spec
    (assetIn : Address) (amountIn : BigDecimal)
    (assetOut : Address) (amountOut : BigDecimal) (st : Store) :
  ∃ usdIn usdOut,
    eval (valueInUSD cfg amountIn assetIn) st = Some usdIn ∧
    eval (valueInUSD cfg amountOut assetOut) st = Some usdOut ∧
    eval (swapValueInUSD cfg assetIn amountIn assetOut amountOut) st =
      Some (if isUSDStable cfg assetOut then usdOut
            else if isUSDStable cfg assetIn then usdIn
            else if xorb (isPricingAsset cfg assetIn) (isPricingAsset cfg assetOut)
              then (if isPricingAsset cfg assetIn then usdIn else usdOut)
            else if bool_decide (0 < usdIn)%Qc && bool_decide (0 < usdOut)%Qc
              then ((usdIn + usdOut) / TWO_BD)%Qc
            else (usdIn + usdOut)%Qc).
Proof.
  eexists _, _. split; [apply valueInUSD_eval|]. split; [apply valueInUSD_eval|].
  unfold swapValueInUSD.
  destruct (isUSDStable cfg assetOut) eqn:Sout.
  { rewrite valueInUSD_eval, Sout. done. }
  destruct (isUSDStable cfg assetIn) eqn:Sin.
  { rewrite valueInUSD_eval, Sin. done. }
  destruct (isPricingAsset cfg assetIn) eqn:Pin, (isPricingAsset cfg assetOut) eqn:Pout;
    simpl; try (rewrite valueInUSD_eval; by rewrite ?Sin, ?Sout).
  all: unfold eval, bind.
  all: destruct (valueInUSD_run amountIn assetIn st) as (st1 & -> & Hf1).
  all: destruct (valueInUSD_run amountOut assetOut st1) as (st2 & -> & Hf2).
  all: rewrite Sin, Sout, (recordedUSDPrice_fresh _ _ _ Hf1); simpl.
  all: unfold BD_gt, BD_div, BD_plus, ZERO_BD, ONE_BD.
  all: match goal with
       | |- context [bool_decide ?P && bool_decide ?Q] =>
           destruct (bool_decide P && bool_decide Q)
       end.
  all: try done.
  all: by rewrite (right_id 1%Qc Qcdiv).
Qed.

(** ** Latest prices *)

(** One run of [updateLatestPrice], entity map by entity map. *)
Lemma updateLatestPrice_run (tokenPrice : TokenPrice) (st : Store) :
  let id := getLatestPriceId (tp_asset tokenPrice) (tp_pricingAsset tokenPrice) in
  ∃ st' usd,
    updateLatestPrice cfg tokenPrice st = Some (tt, st') ∧
    eval (valueInUSD cfg (tp_price tokenPrice) (tp_pricingAsset tokenPrice)) st = Some usd ∧
    latestPrices st' =
      <[id := mkLatestPrice (fieldsAtCreation st tokenPrice).1 (fieldsAtCreation st tokenPrice).2
                (tp_block tokenPrice) (tp_poolId tokenPrice) (tp_price tokenPrice)]>
        (latestPrices st) ∧
    tokens st' !! toHexString (tp_asset tokenPrice) = Some (mkToken (Some usd) (Some id)) ∧
    pools st' = pools st ∧ poolTokens st' = poolTokens st ∧
    poolHistoricalLiquidities st' = poolHistoricalLiquidities st ∧
    balancers st' = balancers st ∧ balancerSnapshots st' = balancerSnapshots st ∧
    poolSnapshots st' = poolSnapshots st.
Proof.
  intros id. unfold updateLatestPrice, fieldsAtCreation, LatestPrice_load, LatestPrice_save.
  fold id. run.
  set (lp := mkLatestPrice _ _ _ _ _).
  set (lp' := mkLatestPrice _ _ _ _ _).
  assert (lp' = lp) as -> by (subst lp lp'; by destruct (latestPrices st !! id)).
  destruct (getToken_run (tp_asset tokenPrice) (set_latestPrices <[id:=lp]> st))
    as (token & st1 & -> & _ & _ & _ & Hf1).
  destruct (valueInUSD_run (tp_price tokenPrice) (tp_pricingAsset tokenPrice) st1)
    as (st2 & Hv & Hf2).
  assert (recordedUSDPrice st1 (tp_pricingAsset tokenPrice) =
          recordedUSDPrice st (tp_pricingAsset tokenPrice)) as Hprice
    by apply (fto_prices _ _ Hf1).
  rewrite Hprice in Hv. rewrite Hv.
  pose proof (freshTokensOnly_trans _ _ _ Hf1 Hf2) as [].
  eexists _, _. split; [reflexivity|]. simpl in *.
  split; [apply valueInUSD_eval|].
  repeat split; try done. apply lookup_insert_eq.
Qed.

(** C5. Two observations of the same (asset, pricingAsset), applied one
    after the other, whatever their blocks, leave one LatestPrice record
    under the id of the pair: it has the block, poolId and price of the
    second observation and the asset and pricingAsset it was created with;
    the store gains no other LatestPrice id, the records of the other ids
    are as before, and no other pair has this id. *)
Theorem updateLatestPrice_twice
    (asset pricingAsset : Bytes) (block1 block2 : BigInt)
    (poolId1 poolId2 : string) (price1 price2 : BigDecimal) (st : Store) :
  let first := mkTokenPrice asset pricingAsset block1 poolId1 price1 in
  let second := mkTokenPrice asset pricingAsset block2 poolId2 price2 in
  let id := getLatestPriceId asset pricingAsset in
  ∃ st1 st2,
    updateLatestPrice cfg first st = Some (tt, st1) ∧
    updateLatestPrice cfg second st1 = Some (tt, st2) ∧
    latestPrices st2 !! id =
      Some (mkLatestPrice (fieldsAtCreation st first).1 (fieldsAtCreation st first).2
              block2 poolId2 price2) ∧
    dom (latestPrices st2) = {[id]} ∪ dom (latestPrices st) ∧
    (∀ id', id' ≠ id → latestPrices st2 !! id' = latestPrices st !! id') ∧
    (∀ asset' pricingAsset',
       getLatestPriceId asset' pricingAsset' = id →
       asset' = asset ∧ pricingAsset' = pricingAsset).
Proof.
  intros first second id.
  destruct (updateLatestPrice_run first st) as (st1 & usd1 & Hrun1 & _ & Hlp1 & _).
  destruct (updateLatestPrice_run second st1) as (st2 & usd2 & Hrun2 & _ & Hlp2 & _).
  simpl in Hlp1, Hlp2. fold id in Hlp1, Hlp2.
  exists st1, st2. split; [done|]. split; [done|].
  assert (fieldsAtCreation st1 second = fieldsAtCreation st first) as Hfields.
  { unfold fieldsAtCreation at 1. simpl. fold id.
    rewrite Hlp1, lookup_insert_eq. simpl.
    by destruct (fieldsAtCreation st first). }
  rewrite Hfields in Hlp2. rewrite Hlp2, Hlp1, insert_insert_eq.
  split; [apply lookup_insert_eq|]. split; [apply dom_insert_L|]. split.
  - intros id' Hne. by rewrite lookup_insert_ne.
  - intros asset' pricingAsset'. apply getLatestPriceId_inj.
Qed.

(** C6. [updateLatestPrice] always returns; afterwards the Token of the
    observed asset has, as its [latestUSDPrice], the value that [valueInUSD]
    gives for the observed price and pricing asset (the price itself for a
    USD-stable pricing asset, zero for another one without a recorded
    price), and its [latestPrice] is the id of the LatestPrice record, which
    is stored with the observation's block, poolId and price. *)
Theorem updateLatestPrice_token (observation : TokenPrice) (st : Store) :
  let id := getLatestPriceId (tp_asset observation) (tp_pricingAsset observation) in
  ∃ st' usd record,
    updateLatestPrice cfg observation st = Some (tt, st') ∧
    eval (valueInUSD cfg (tp_price observation) (tp_pricingAsset observation)) st = Some usd ∧
    usd = (if isUSDStable cfg (tp_pricingAsset observation) then tp_price observation
           else match recordedUSDPrice st (tp_pricingAsset observation) with
                | None => ZERO_BD
                | Some price => BD_times (tp_price observation) price
                end) ∧
    tokens st' !! toHexString (tp_asset observation) = Some (mkToken (Some usd) (Some id)) ∧
    latestPrices st' !! id = Some record ∧
    lp_block record = tp_block observation ∧
    lp_poolId record = tp_poolId observation ∧
    lp_price record = tp_price observation.
Proof.
  intros id.
  destruct (updateLatestPrice_run observation st)
    as (st' & usd & Hrun & Husd & Hlp & Htoken & _).
  fold id in Hlp, Htoken.
  exists st', usd. eexists. split; [done|]. split; [done|].
  split. { rewrite valueInUSD_eval in Husd. congruence. }
  split; [done|]. rewrite Hlp, lookup_insert_eq. done.
Qed.

(** ** Pool liquidity *)

Lemma foldl_pointwise {A B} (f g : A → B → A) (a : A) (l : list B) :
  (∀ x y, f x y = g x y) → foldl f a l = foldl g a l.
Proof.
  intros Hfg. revert a. induction l as [|y l IH]; intros a; simpl; [done|].
  by rewrite Hfg, IH.
Qed.

Lemma addedValue_fresh st st' poolId pool tokenAddress :
  freshTokensOnly st st' →
  addedValue cfg st' poolId pool tokenAddress = addedValue cfg st poolId pool tokenAddress.
Proof.
  intros Hf. unfold addedValue.
  by rewrite (fto_poolTokens _ _ Hf), (recordedUSDPrice_fresh _ _ _ Hf).
Qed.

Lemma accumulateToken_run poolId pool poolValueUSD tokenAddress st :
  ∃ st',
    accumulateToken cfg poolId pool poolValueUSD tokenAddress st =
      Some (BD_plus poolValueUSD (addedValue cfg st poolId pool tokenAddress), st') ∧
    freshTokensOnly st st'.
Proof.
  unfold accumulateToken, addedValue, loadPoolToken, BD_plus, ZERO_BD. run.
  destruct (poolTokens st !! (poolId, toHexString tokenAddress)) as [poolToken|].
  - destruct (getToken_run tokenAddress st) as (token & st' & -> & <- & _ & _ & Hf).
    exists st'. split; [|done].
    destruct (latestUSDPrice token); [|by rewrite Qcplus_0_r].
    destruct (hasVirtualSupply cfg pool && Address_eq (address pool) tokenAddress);
      [by rewrite Qcplus_0_r | done].
  - exists st. rewrite Qcplus_0_r. split; [done | apply freshTokensOnly_refl].
Qed.

Lemma accumulate_run poolId pool tokensList poolValueUSD st :
  ∃ st',
    accumulate cfg poolId pool tokensList poolValueUSD st =
      Some (foldl (λ total tokenAddress,
                     BD_plus total (addedValue cfg st poolId pool tokenAddress))
                  poolValueUSD tokensList, st') ∧
    freshTokensOnly st st'.
Proof.
  revert poolValueUSD st.
  induction tokensList as [|tokenAddress rest IH]; intros poolValueUSD st; simpl.
  - exists st. split; [done | apply freshTokensOnly_refl].
  - destruct (accumulateToken_run poolId pool poolValueUSD tokenAddress st)
      as (st1 & Hstep & Hf1).
    destruct (IH (BD_plus poolValueUSD (addedValue cfg st poolId pool tokenAddress)) st1)
      as (st2 & Hrest & Hf2).
    exists st2. unfold bind. rewrite Hstep, Hrest.
    split; [|by eapply freshTokensOnly_trans].
    do 2 f_equal. apply foldl_pointwise. intros total t.
    by rewrite (addedValue_fresh _ _ _ _ _ Hf1).
Qed.

Lemma accumulate_eval poolId pool st :
  eval (accumulate cfg poolId pool (tokensList pool) ZERO_BD) st =
    Some (accumulatedValue cfg st poolId pool).
Proof.
  destruct (accumulate_run poolId pool (tokensList pool) ZERO_BD st) as (st' & Hrun & _).
  unfold eval. by rewrite Hrun.
Qed.

Lemma freshTokensOnly_sameButTokens st st' :
  freshTokensOnly st st' → sameButTokens st st'.
Proof. intros []. by split. Qed.

Lemma updateBptPrice_run pool st :
  ∃ st', updateBptPrice pool st = Some (tt, st') ∧ sameButTokens st st'.
Proof.
  unfold updateBptPrice. destruct (BD_equals (totalShares pool) ZERO_BD).
  - exists st. by split.
  - destruct (getToken_run (address pool) st) as (token & st' & Hrun & _ & _ & _ & Hf).
    unfold bind, Token_save, modify. rewrite Hrun.
    eexists. split; [reflexivity|].
    destruct (freshTokensOnly_sameButTokens _ _ Hf). by split.
Qed.

(** One run of [updatePoolLiquidity], by cases on the store: the two early
    returns, the two traps of the commit path, and the commit itself. *)
Lemma updatePoolLiquidity_run poolId block timestamp st :
  match pools st !! poolId with
  | None => updatePoolLiquidity cfg poolId block timestamp st = Some (false, st)
  | Some pool =>
      if (length (tokensList pool) <? 2)%nat
      then updatePoolLiquidity cfg poolId block timestamp st = Some (false, st)
      else
        match USD_STABLE_ASSETS cfg !! 0%nat with
        | None => updatePoolLiquidity cfg poolId block timestamp st = None
        | Some stable0 =>
            match balancers st !! "2" with
            | None => updatePoolLiquidity cfg poolId block timestamp st = None
            | Some vault =>
                let newTotal := accumulatedValue cfg st poolId pool in
                ∃ st',
                  updatePoolLiquidity cfg poolId block timestamp st = Some (true, st') ∧
                  pools st' = <[poolId := committedPool pool newTotal]> (pools st) ∧
                  poolHistoricalLiquidities st' =
                    <[getPoolHistoricalLiquidityId poolId stable0 block :=
                        committedRow poolId stable0 block pool newTotal]>
                      (poolHistoricalLiquidities st) ∧
                  balancers st' =
                    <["2" := mkBalancer (vault_totalLiquidity vault
                                         + (newTotal - totalLiquidity pool))%Qc]>
                      (balancers st) ∧
                  poolTokens st' = poolTokens st ∧
                  latestPrices st' = latestPrices st
            end
        end
  end.
Proof.
  unfold updatePoolLiquidity, Pool_load. run.
  destruct (pools st !! poolId) as [pool|] eqn:Hpool; [|done].
  destruct (length (tokensList pool) <? 2)%nat eqn:Hlen; [done|].
  destruct (accumulate_run poolId pool (tokensList pool) ZERO_BD st) as (st1 & -> & Hf1).
  fold (accumulatedValue cfg st poolId pool).
  set (newTotal := accumulatedValue cfg st poolId pool).
  rewrite eqb_reflx. simpl. unfold firstUSDStable.
  destruct (USD_STABLE_ASSETS cfg !! 0%nat) as [stable0|]; [|done].
  unfold PoolHistoricalLiquidity_save, Pool_save. run.
  match goal with
  | |- context [updateBptPrice ?p ?s] =>
      destruct (updateBptPrice_run p s) as (st2 & -> & Hs2)
  end.
  destruct Hs2, Hf1. simpl in *.
  unfold createPoolSnapshot, loadVault, Balancer_load. run.
  rewrite sbt_balancers0, fto_balancers0.
  destruct (balancers st !! "2") as [vault|]; [|done].
  unfold Balancer_save, getBalancerSnapshot, BalancerSnapshot_load, BalancerSnapshot_save. run.
  destruct (balancerSnapshots st2 !! balancerSnapshotId cfg "2" timestamp);
    simpl; (eexists; split; [reflexivity|]); simpl;
    rewrite ?sbt_pools0, ?sbt_phls0, ?sbt_balancers0, ?sbt_poolTokens0,
      ?sbt_latestPrices0, ?fto_pools0, ?fto_phls0, ?fto_balancers0,
      ?fto_poolTokens0, ?fto_latestPrices0; done.
Qed.

(** [updatePoolLiquidity] returns false, on any store, exactly for an absent
    pool and for a pool with fewer than two listed tokens. *)
Lemma updatePoolLiquidity_false_iff poolId block timestamp st :
  eval (updatePoolLiquidity cfg poolId block timestamp) st = Some false ↔
  pools st !! poolId = None ∨
  ∃ pool, pools st !! poolId = Some pool ∧ (length (tokensList pool) < 2)%nat.
Proof.
  pose proof (updatePoolLiquidity_run poolId block timestamp st) as Hrun.
  unfold eval. destruct (pools st !! poolId) as [pool|] eqn:Hpool.
  - destruct (Nat.ltb_spec (length (tokensList pool)) 2) as [Hlt|Hge].
    + rewrite Hrun. split; [|done]. intros _. right. by exists pool.
    + split.
      * destruct (USD_STABLE_ASSETS cfg !! 0%nat); [|by rewrite Hrun].
        destruct (balancers st !! "2"); [|by rewrite Hrun].
        destruct Hrun as (st' & -> & _). done.
      * intros [?|(pool' & [= <-] & Hlt)]; [done | lia].
  - rewrite Hrun. split; [by left | done].
Qed.

(** C7. For a poolId without a Pool in the store, and for a Pool with fewer
    than two listed tokens, [updatePoolLiquidity] returns false and the
    store after the call is the store before it. *)
Theorem updatePoolLiquidity_noop poolId block timestamp st :
  (pools st !! poolId = None ∨
   ∃ pool, pools st !! poolId = Some pool ∧ (length (tokensList pool) < 2)%nat) →
  updatePoolLiquidity cfg poolId block timestamp st = Some (false, st).
Proof.
  intros H. pose proof (updatePoolLiquidity_run poolId block timestamp st) as Hrun.
  destruct H as [Hnone|(pool & Hpool & Hlt)].
  - by rewrite Hnone in Hrun.
  - rewrite Hpool in Hrun.
    by destruct (Nat.ltb_spec (length (tokensList pool)) 2); [|lia].
Qed.

(** The total of a pool of two tokens with balances 10 and 5 and prices $2
    and $4 is $40. *)
Lemma accumulatedValue_two_tokens st poolId pool A B :
  tokensList pool = [A; B] →
  poolTokens st !! (poolId, toHexString A) = Some (mkPoolToken (BD_of_Z 10)) →
  poolTokens st !! (poolId, toHexString B) = Some (mkPoolToken (BD_of_Z 5)) →
  recordedUSDPrice st A = Some (BD_of_Z 2) →
  recordedUSDPrice st B = Some (BD_of_Z 4) →
  hasVirtualSupply cfg pool && Address_eq (address pool) A = false →
  hasVirtualSupply cfg pool && Address_eq (address pool) B = false →
  accumulatedValue cfg st poolId pool = BD_of_Z 40.
Proof.
  intros Hlist HA HB HpA HpB HvA HvB.
  unfold accumulatedValue, addedValue. rewrite Hlist. simpl.
  rewrite HA, HB, HpA, HpB, HvA, HvB. simpl.
  apply Qc_is_canon. reflexivity.
Qed.

(** C8. On the commit path (the pool is stored with at least two listed
    tokens, the USD-stable list has a first entry and the Balancer singleton
    is stored) the call returns true and has saved a PoolHistoricalLiquidity
    row under the id of (poolId, first USD-stable asset, block), with the
    pool's totalShares, the new total as poolLiquidity, and as
    poolShareValue the new total divided by totalShares when totalShares is
    positive and zero otherwise; the Pool is saved with the new total as its
    totalLiquidity.  With tokens A (balance 10, $2) and B (balance 5, $4)
    poolLiquidity is 40, and poolShareValue is 2 when totalShares is 20. *)
Theorem updatePoolLiquidity_commit poolId block timestamp st pool stable0 vault :
  pools st !! poolId = Some pool →
  (2 ≤ length (tokensList pool))%nat →
  USD_STABLE_ASSETS cfg !! 0%nat = Some stable0 →
  balancers st !! "2" = Some vault →
  ∃ newTotal st' row saved,
    eval (accumulate cfg poolId pool (tokensList pool) ZERO_BD) st = Some newTotal ∧
    updatePoolLiquidity cfg poolId block timestamp st = Some (true, st') ∧
    poolHistoricalLiquidities st' !! getPoolHistoricalLiquidityId poolId stable0 block
      = Some row ∧
    phl_poolId row = poolId ∧ phl_pricingAsset row = stable0 ∧ phl_block row = block ∧
    poolTotalShares row = totalShares pool ∧
    poolLiquidity row = newTotal ∧
    poolShareValue row =
      (if bool_decide (0 < totalShares pool)%Qc
       then (newTotal / totalShares pool)%Qc else 0%Qc) ∧
    pools st' !! poolId = Some saved ∧
    totalLiquidity saved = newTotal ∧
    tokensList saved = tokensList pool ∧ totalShares saved = totalShares pool ∧
    (∀ A B,
       tokensList pool = [A; B] →
       poolTokens st !! (poolId, toHexString A) = Some (mkPoolToken (BD_of_Z 10)) →
       poolTokens st !! (poolId, toHexString B) = Some (mkPoolToken (BD_of_Z 5)) →
       recordedUSDPrice st A = Some (BD_of_Z 2) →
       recordedUSDPrice st B = Some (BD_of_Z 4) →
       hasVirtualSupply cfg pool && Address_eq (address pool) A = false →
       hasVirtualSupply cfg pool && Address_eq (address pool) B = false →
       poolLiquidity row = BD_of_Z 40 ∧
       (totalShares pool = BD_of_Z 20 → poolShareValue row = BD_of_Z 2)).
Proof.
  intros Hpool Hlen Hstable Hvault.
  pose proof (updatePoolLiquidity_run poolId block timestamp st) as Hrun.
  rewrite Hpool, Hstable, Hvault in Hrun.
  destruct (Nat.ltb_spec (length (tokensList pool)) 2); [lia|].
  destruct Hrun as (st' & Hrun & Hpools & Hphls & _).
  exists (accumulatedValue cfg st poolId pool), st',
    (committedRow poolId stable0 block pool (accumulatedValue cfg st poolId pool)),
    (committedPool pool (accumulatedValue cfg st poolId pool)).
  split; [apply accumulate_eval|]. split; [done|].
  split; [by rewrite Hphls, lookup_insert_eq|].
  do 6 (split; [done|]).
  split; [by rewrite Hpools, lookup_insert_eq|].
  do 3 (split; [done|]).
  intros A B Hlist HA HB HpA HpB HvA HvB. simpl.
  rewrite (accumulatedValue_two_tokens st poolId pool A B) by done.
  split; [done|]. intros ->. apply Qc_is_canon. reflexivity.
Qed.

(** C2 (as amended). For a constituent token with a balance record that the
    virtual-supply rule does not exclude, the loop adds the Token's recorded
    [latestUSDPrice] times the balance, and zero when no price is recorded;
    for a token that is not USD-stable this is [valueInUSD (balance,
    tokenAddress)]. *)
Theorem accumulateToken_adds poolId pool total tokenAddress poolToken st :
  poolTokens st !! (poolId, toHexString tokenAddress) = Some poolToken →
  hasVirtualSupply cfg pool && Address_eq (address pool) tokenAddress = false →
  ∃ added,
    eval (accumulateToken cfg poolId pool total tokenAddress) st =
      Some (BD_plus total added) ∧
    added = match recordedUSDPrice st tokenAddress with
            | Some price => BD_times price (balance poolToken)
            | None => ZERO_BD
            end ∧
    (isUSDStable cfg tokenAddress = false →
     eval (valueInUSD cfg (balance poolToken) tokenAddress) st = Some added).
Proof.
  intros Hbalance Hvirtual.
  destruct (accumulateToken_run poolId pool total tokenAddress st) as (st' & Hrun & _).
  exists (addedValue cfg st poolId pool tokenAddress).
  unfold eval. rewrite Hrun. split; [done|].
  unfold addedValue. rewrite Hbalance, Hvirtual.
  split; [done|]. intros Hstable.
  fold (eval (valueInUSD cfg (balance poolToken) tokenAddress) st).
  rewrite valueInUSD_eval, Hstable.
  destruct (recordedUSDPrice st tokenAddress); [|done].
  unfold BD_times. by rewrite Qcmult_comm.
Qed.

End Properties.

(** ** Pool liquidity: what the call returns and what it adds to the aggregate *)

Section Aggregate.

Context (cfg : Config).

(** C10 (as amended). [updatePoolLiquidity] returns false exactly for an
    absent pool and for a pool with fewer than two listed tokens.  For a
    stored pool with at least two listed tokens whose addresses are
    well-formed, when the USD-stable list has a first entry and the Balancer
    singleton "2" is stored, it returns true with the pool committed at the
    newly computed total, whatever the prices and whatever the pool's prior
    totalLiquidity: the check after the loop never fires. *)
Theorem updatePoolLiquidity_check_never_fires poolId block timestamp st :
  (eval (updatePoolLiquidity cfg poolId block timestamp) st = Some false ↔
   pools st !! poolId = None ∨
   ∃ pool, pools st !! poolId = Some pool ∧ (length (tokensList pool) < 2)%nat) ∧
  (∀ pool stable0 vault,
     pools st !! poolId = Some pool →
     (2 ≤ length (tokensList pool))%nat →
     wellFormedPool pool →
     USD_STABLE_ASSETS cfg !! 0%nat = Some stable0 →
     balancers st !! "2" = Some vault →
     ∃ newTotal st',
       eval (accumulate cfg poolId pool (tokensList pool) ZERO_BD) st = Some newTotal ∧
       updatePoolLiquidity cfg poolId block timestamp st = Some (true, st') ∧
       pools st' !! poolId = Some (committedPool pool newTotal)).
Proof.
  split; [apply updatePoolLiquidity_false_iff|].
  intros pool stable0 vault Hpool Hlen _ Hstable Hvault.
  pose proof (updatePoolLiquidity_run cfg poolId block timestamp st) as Hrun.
  rewrite Hpool, Hstable, Hvault in Hrun.
  destruct (Nat.ltb_spec (length (tokensList pool)) 2); [lia|].
  destruct Hrun as (st' & Hrun & Hpools & _).
  exists (accumulatedValue cfg st poolId pool), st'.
  split; [apply accumulate_eval|]. split; [done|].
  by rewrite Hpools, lookup_insert_eq.
Qed.


End Aggregate.

(** * The properties on the concrete stores *)

(** C1: the code at the input of the claim.  Pool "p1" stands at $40, no
    token has a price, so the new total is $0: the call returns true, and
    afterwards the pool stands at $0, a snapshot row is stored and the
    Balancer singleton has dropped from $100 to $60. *)
Lemma updatePoolLiquidity_unpriced_commits :
  totalLiquidity <$> pools unpricedStore !! "p1" = Some (BD_of_Z 40) ∧
  eval (accumulate exampleConfig "p1" pool1At40 (tokensList pool1At40) ZERO_BD)
       unpricedStore = Some ZERO_BD ∧
  ∃ st',
    updatePoolLiquidity exampleConfig "p1" 7 100000 unpricedStore = Some (true, st') ∧
    totalLiquidity <$> pools st' !! "p1" = Some ZERO_BD ∧
    poolLiquidity <$> poolHistoricalLiquidities st' !! "p1-0x55-7" = Some ZERO_BD ∧
    vault_totalLiquidity <$> balancers st' !! "2" = Some (BD_of_Z 60).
Proof.
  split; [reflexivity|]. split; [vm_compute; reflexivity|].
  exists (storeAfter (updatePoolLiquidity exampleConfig "p1" 7 100000) unpricedStore).
  split; [vm_compute; reflexivity|]. split; [vm_compute; reflexivity|].
  split; vm_compute; reflexivity.
Qed.

(** Against C2 as stated: a USD-stable constituent token with balance 10 and
    no recorded price adds nothing to the total, while [valueInUSD] of its
    balance is 10. *)
Lemma accumulateToken_stable_counterexample :
  poolTokens stablePoolStore !! ("p4", toHexString stableAsset)
    = Some (mkPoolToken (BD_of_Z 10)) ∧
  hasVirtualSupply exampleConfig stablePool
    && Address_eq (address stablePool) stableAsset = false ∧
  eval (valueInUSD exampleConfig (BD_of_Z 10) stableAsset) stablePoolStore
    = Some (BD_of_Z 10) ∧
  eval (accumulateToken exampleConfig "p4" stablePool ZERO_BD stableAsset) stablePoolStore
    = Some ZERO_BD ∧
  ¬ ∃ usd,
      eval (valueInUSD exampleConfig (BD_of_Z 10) stableAsset) stablePoolStore = Some usd ∧
      eval (accumulateToken exampleConfig "p4" stablePool ZERO_BD stableAsset) stablePoolStore
        = Some (BD_plus ZERO_BD usd).
Proof.
  split; [reflexivity|]. split; [reflexivity|].
  split; [vm_compute; reflexivity|]. split; [vm_compute; reflexivity|].
  intros (usd & Husd & Hadded).
  assert (eval (valueInUSD exampleConfig (BD_of_Z 10) stableAsset) stablePoolStore
          = Some (BD_of_Z 10)) as H10 by (vm_compute; reflexivity).
  assert (eval (accumulateToken exampleConfig "p4" stablePool ZERO_BD stableAsset)
               stablePoolStore = Some ZERO_BD) as H0 by (vm_compute; reflexivity).
  rewrite H10 in Husd. injection Husd as <-.
  rewrite H0 in Hadded. vm_compute in Hadded. discriminate.
Qed.

Lemma accumulateToken_adds_witness :
  eval (accumulateToken exampleConfig "p1" pool1 ZERO_BD tokenA) exampleStore =
    Some (BD_plus ZERO_BD (BD_times (BD_of_Z 2) (BD_of_Z 10))) ∧
  eval (valueInUSD exampleConfig (BD_of_Z 10) tokenA) exampleStore =
    Some (BD_times (BD_of_Z 2) (BD_of_Z 10)).
Proof.
  destruct (accumulateToken_adds exampleConfig "p1" pool1 ZERO_BD tokenA
              (mkPoolToken (BD_of_Z 10)) exampleStore eq_refl eq_refl)
    as (added & Hrun & Hadded & Hvalue).
  split.
  - rewrite Hrun, Hadded. reflexivity.
  - etrans; [exact (Hvalue eq_refl)|]. rewrite Hadded. reflexivity.
Defined.

Lemma updatePoolLiquidity_noop_witness :
  updatePoolLiquidity exampleConfig "p3" 7 100000 singleTokenStore
    = Some (false, singleTokenStore).
Proof.
  apply (updatePoolLiquidity_noop exampleConfig).
  right. exists singleTokenPool. split; [reflexivity | apply le_n].
Defined.

Lemma updatePoolLiquidity_commit_witness :
  ∃ st' row,
    updatePoolLiquidity exampleConfig "p1" 7 100000 exampleStore = Some (true, st') ∧
    poolHistoricalLiquidities st' !! "p1-0x55-7" = Some row ∧
    poolTotalShares row = BD_of_Z 20 ∧
    poolLiquidity row = BD_of_Z 40 ∧
    poolShareValue row = BD_of_Z 2 ∧
    totalLiquidity <$> pools st' !! "p1" = Some (BD_of_Z 40).
Proof.
  destruct (updatePoolLiquidity_commit exampleConfig "p1" 7 100000 exampleStore
              pool1 stableAsset (mkBalancer (BD_of_Z 100))
              eq_refl (le_n 2) eq_refl eq_refl)
    as (newTotal & st' & row & saved & _ & Hrun & Hrow & _ & _ & _ & Hshares
        & Hliq & _ & Hsaved & Htotal & _ & _ & Hexample).
  destruct (Hexample tokenA tokenB eq_refl eq_refl eq_refl eq_refl eq_refl eq_refl eq_refl)
    as [H40 H2].
  exists st', row. split; [exact Hrun|]. split; [exact Hrow|].
  split; [exact Hshares|]. split; [exact H40|]. split; [exact (H2 eq_refl)|].
  rewrite Hsaved. simpl. congruence.
Defined.


Lemma widePoolAt40_wellFormed : wellFormedPool widePoolAt40.
Proof. split; [repeat constructor | right; reflexivity]. Qed.



(** Against C10 as stated: a stored pool with two listed tokens, all
    addresses well-formed, but no Balancer singleton: the call traps on the
    cast of line 84, so it does not return true. *)
Lemma updatePoolLiquidity_without_vault_counterexample :
  pools wideStoreWithoutVault !! "p1" = Some widePoolAt40 ∧
  length (tokensList widePoolAt40) = 2%nat ∧
  wellFormedPool widePoolAt40 ∧
  updatePoolLiquidity wideConfig "p1" 7 100000 wideStoreWithoutVault = None ∧
  ¬ ∃ st', updatePoolLiquidity wideConfig "p1" 7 100000 wideStoreWithoutVault
             = Some (true, st').
Proof.
  assert (updatePoolLiquidity wideConfig "p1" 7 100000 wideStoreWithoutVault = None)
    as Htrap by (vm_compute; reflexivity).
  split; [reflexivity|]. split; [reflexivity|].
  split; [apply widePoolAt40_wellFormed|]. split; [done|].
  intros (st' & Hrun). congruence.
Qed.

Lemma updatePoolLiquidity_check_never_fires_witness :
  ∃ st',
    updatePoolLiquidity wideConfig "p1" 7 100000 wideUnpricedStore = Some (true, st') ∧
    pools st' !! "p1" = Some (committedPool widePoolAt40 ZERO_BD).
Proof.
  destruct (updatePoolLiquidity_check_never_fires wideConfig "p1" 7 100000
              wideUnpricedStore) as [_ Hcommit].
  destruct (Hcommit widePoolAt40 wideStable (mkBalancer (BD_of_Z 100))
              eq_refl (le_n 2) widePoolAt40_wellFormed eq_refl eq_refl)
    as (newTotal & st' & Htotal & Hrun & Hpool).
  exists st'. split; [exact Hrun|].
  assert (newTotal = ZERO_BD) as <-; [|exact Hpool].
  assert (eval (accumulate wideConfig "p1" widePoolAt40 (tokensList widePoolAt40) ZERO_BD)
               wideUnpricedStore = Some ZERO_BD) as H0 by (vm_compute; reflexivity).
  congruence.
Defined.



(** * Further properties of the code *)

Section Registry.

Context (cfg : Config).

Lemma includes_elem_of (assets : list Address) (asset : Address) :
  includes assets asset = true ↔ asset ∈ assets.
Proof.
  induction assets as [|a rest IH]; simpl.
  - rewrite elem_of_nil. split; [discriminate | done].
  - unfold Address_eq. rewrite elem_of_cons. case_bool_decide as Heq.
    + split; [intros _; by left | done].
    + rewrite IH. split; [by right | intros [->|]; [done | done]].
Qed.

(** X1. [isPricingAsset] and [isUSDStable] decide membership in their
    registry list, by the bytes of the address. *)
Theorem registry_membership (asset : Address) :
  (isPricingAsset cfg asset = true ↔ asset ∈ PRICING_ASSETS cfg) ∧
  (isUSDStable cfg asset = true ↔ asset ∈ USD_STABLE_ASSETS cfg).
Proof. split; apply includes_elem_of. Qed.

Lemma firstIncluded_skip (pre : list Address) (p : Address) (post assets : list Address) :
  (∀ q, q ∈ pre → q ∉ assets) →
  firstIncluded (pre ++ p :: post)%list assets = firstIncluded (p :: post) assets.
Proof.
  induction pre as [|q pre IH]; intros Hpre; [done|]. simpl.
  destruct (includes assets q) eqn:Hq.
  - apply includes_elem_of in Hq. destruct (Hpre q); [by left | done].
  - apply IH. intros q' Hq'. apply Hpre. by right.
Qed.

(** X2. [getPreferentialPricingAsset] returns the earliest entry of
    [PRICING_ASSETS] that is among the candidates: an entry is returned as
    soon as no entry before it is a candidate. *)
Theorem getPreferentialPricingAsset_earliest
    (assets pre : list Address) (p : Address) (post : list Address) :
  PRICING_ASSETS cfg = (pre ++ p :: post)%list →
  p ∈ assets →
  (∀ q, q ∈ pre → q ∉ assets) →
  getPreferentialPricingAsset cfg assets = p.
Proof.
  intros Hlist Hp Hpre. unfold getPreferentialPricingAsset.
  rewrite Hlist, firstIncluded_skip by done. simpl.
  apply includes_elem_of in Hp. by rewrite Hp.
Qed.

Lemma firstIncluded_cases (preferred assets : list Address) :
  (firstIncluded preferred assets = ZERO_ADDRESS ∧ ∀ q, q ∈ preferred → q ∉ assets) ∨
  (firstIncluded preferred assets ∈ preferred ∧ firstIncluded preferred assets ∈ assets).
Proof.
  induction preferred as [|p rest IH]; simpl.
  - left. split; [done|]. by intros q ?%elem_of_nil.
  - destruct (includes assets p) eqn:Hp.
    + right. split; [by left | by apply includes_elem_of].
    + destruct IH as [[Hzero Hnone]|[Hin Hcand]].
      * left. split; [done|]. intros q [->|Hq]%elem_of_cons; [|by apply Hnone].
        rewrite <- includes_elem_of. by rewrite Hp.
      * right. split; [by right | done].
Qed.

(** X3. The result of [getPreferentialPricingAsset] is either the sentinel
    [ZERO_ADDRESS], when no entry of [PRICING_ASSETS] is a candidate, or an
    entry of [PRICING_ASSETS] that is a candidate; for an empty candidate
    list it is the sentinel. *)
Theorem getPreferentialPricingAsset_cases (assets : list Address) :
  ((getPreferentialPricingAsset cfg assets = ZERO_ADDRESS ∧
    ∀ q, q ∈ PRICING_ASSETS cfg → q ∉ assets) ∨
   (getPreferentialPricingAsset cfg assets ∈ PRICING_ASSETS cfg ∧
    getPreferentialPricingAsset cfg assets ∈ assets)) ∧
  getPreferentialPricingAsset cfg [] = ZERO_ADDRESS.
Proof.
  split; [apply firstIncluded_cases|].
  destruct (firstIncluded_cases (PRICING_ASSETS cfg) []) as [[H _]|[_ H]]; [done|].
  by apply elem_of_nil in H.
Qed.

Lemma firstIncluded_same_members (preferred assets assets' : list Address) :
  (∀ a, a ∈ assets ↔ a ∈ assets') →
  firstIncluded preferred assets = firstIncluded preferred assets'.
Proof.
  intros Hsame. induction preferred as [|p rest IH]; simpl; [done|].
  assert (includes assets p = includes assets' p) as ->.
  { destruct (includes assets p) eqn:H, (includes assets' p) eqn:H'; try done.
    - apply includes_elem_of, Hsame, includes_elem_of in H. congruence.
    - apply includes_elem_of, Hsame, includes_elem_of in H'. congruence. }
  by rewrite IH.
Qed.

(** X4. The preference is the registry's, not the candidates': two
    candidate lists with the same members, in any order and with any
    repetitions, get the same preferential pricing asset. *)
Theorem getPreferentialPricingAsset_members (assets assets' : list Address) :
  (∀ a, a ∈ assets ↔ a ∈ assets') →
  getPreferentialPricingAsset cfg assets = getPreferentialPricingAsset cfg assets'.
Proof. apply firstIncluded_same_members. Qed.

End Registry.

(** ** Valuation, continued *)

Section Valuation.

Context (cfg : Config).

Lemma Store_eq (st st' : Store) :
  pools st = pools st' → poolTokens st = poolTokens st' → tokens st = tokens st' →
  latestPrices st = latestPrices st' →
  poolHistoricalLiquidities st = poolHistoricalLiquidities st' →
  balancers st = balancers st' → balancerSnapshots st = balancerSnapshots st' →
  poolSnapshots st = poolSnapshots st' → st = st'.
Proof. destruct st, st'. simpl. by intros -> -> -> -> -> -> -> ->. Qed.

Lemma withToken_lookup (id id' : string) (m : gmap string Token) :
  withToken id m !! id' =
    if decide (id = id') then Some (default (mkToken None None) (m !! id)) else m !! id'.
Proof.
  unfold withToken. destruct (m !! id) as [t|] eqn:E.
  - case_decide; [by subst | done].
  - case_decide; [subst; by rewrite lookup_insert_eq | by rewrite lookup_insert_ne].
Qed.

Lemma withToken_price (id id' : string) (m : gmap string Token) :
  withToken id m !! id' ≫= latestUSDPrice = m !! id' ≫= latestUSDPrice.
Proof.
  rewrite withToken_lookup. case_decide; [subst|done]. by destruct (m !! id').
Qed.

Lemma withToken_id (id : string) (m : gmap string Token) :
  is_Some (m !! id) → withToken id m = m.
Proof. intros [t Ht]. unfold withToken. by rewrite Ht. Qed.

(** [getToken], exactly. *)
Lemma getToken_exact (asset : Address) (st : Store) :
  getToken asset st =
    Some (default (mkToken None None) (tokens st !! toHexString asset),
          set_tokens (withToken (toHexString asset)) st).
Proof.
  unfold getToken, createToken, Token_load, Token_save, bind, gets, modify, ret, withToken,
    set_tokens.
  destruct st as [p pt t lp phl b bs ps]. simpl. by destruct (t !! toHexString asset).
Qed.

(** [valueInUSD], exactly. *)
Lemma valueInUSD_exact (value : BigDecimal) (asset : Address) (st : Store) :
  valueInUSD cfg value asset st =
    Some (if isUSDStable cfg asset then value
          else match recordedUSDPrice st asset with
               | Some price => BD_times value price
               | None => ZERO_BD
               end,
          if isUSDStable cfg asset then st
          else set_tokens (withToken (toHexString asset)) st).
Proof.
  unfold valueInUSD, bind, ret, recordedUSDPrice. destruct (isUSDStable cfg asset); [done|].
  rewrite getToken_exact. by destruct (tokens st !! toHexString asset) as [[[]]|].
Qed.

(** [swapValueInUSD], by its branches, over the values on the store before
    the call. *)
Lemma swapValueInUSD_eval
    (assetIn : Address) (amountIn : BigDecimal)
    (assetOut : Address) (amountOut : BigDecimal) (st : Store) :
  ∀ usdIn usdOut,
    eval (valueInUSD cfg amountIn assetIn) st = Some usdIn →
    eval (valueInUSD cfg amountOut assetOut) st = Some usdOut →
    eval (swapValueInUSD cfg assetIn amountIn assetOut amountOut) st =
      Some (if isUSDStable cfg assetOut then usdOut
            else if isUSDStable cfg assetIn then usdIn
            else if isPricingAsset cfg assetIn && negb (isPricingAsset cfg assetOut)
              then usdIn
            else if isPricingAsset cfg assetOut && negb (isPricingAsset cfg assetIn)
              then usdOut
            else BD_div (BD_plus usdIn usdOut)
                   (if BD_gt usdIn ZERO_BD && BD_gt usdOut ZERO_BD
                    then TWO_BD else ONE_BD)).
Proof.
  intros usdIn usdOut Hin Hout. unfold swapValueInUSD.
  destruct (isUSDStable cfg assetOut) eqn:Sout; [done|].
  destruct (isUSDStable cfg assetIn) eqn:Sin; [done|].
  destruct (isPricingAsset cfg assetIn && negb (isPricingAsset cfg assetOut)); [done|].
  destruct (isPricingAsset cfg assetOut && negb (isPricingAsset cfg assetIn)); [done|].
  unfold eval, bind in *. rewrite valueInUSD_exact in *. rewrite Sin, Sout in *.
  simpl in *. rewrite valueInUSD_exact, Sout. simpl.
  injection Hin as <-. injection Hout as <-.
  assert (recordedUSDPrice (set_tokens (withToken (toHexString assetIn)) st) assetOut
          = recordedUSDPrice st assetOut) as ->; [|done].
  unfold recordedUSDPrice. simpl. apply withToken_price.
Qed.

(** X6. [swapValueInUSD] with a USD-stable side is the amount of that side
    (of the out side when both are stable), whatever the recorded prices,
    and it leaves the store as it is: no Token is looked up. *)
Theorem swapValueInUSD_stable_side
    (assetIn : Address) (amountIn : BigDecimal)
    (assetOut : Address) (amountOut : BigDecimal) (st : Store) :
  isUSDStable cfg assetIn || isUSDStable cfg assetOut = true →
  swapValueInUSD cfg assetIn amountIn assetOut amountOut st =
    Some (if isUSDStable cfg assetOut then amountOut else amountIn, st).
Proof.
  intros Hstable. unfold swapValueInUSD.
  destruct (isUSDStable cfg assetOut) eqn:Sout.
  - by rewrite valueInUSD_exact, Sout.
  - destruct (isUSDStable cfg assetIn) eqn:Sin; [|done].
    by rewrite valueInUSD_exact, Sin.
Qed.

(** X7. Exchanging the two sides of a swap does not change its USD value,
    unless both assets are USD-stable (then the out side decides). *)
Theorem swapValueInUSD_symmetric
    (assetIn : Address) (amountIn : BigDecimal)
    (assetOut : Address) (amountOut : BigDecimal) (st : Store) :
  isUSDStable cfg assetIn && isUSDStable cfg assetOut = false →
  eval (swapValueInUSD cfg assetIn amountIn assetOut amountOut) st =
  eval (swapValueInUSD cfg assetOut amountOut assetIn amountIn) st.
Proof.
  intros Hnot.
  rewrite (swapValueInUSD_eval assetIn amountIn assetOut amountOut st _ _
             (valueInUSD_eval cfg _ _ _) (valueInUSD_eval cfg _ _ _)).
  rewrite (swapValueInUSD_eval assetOut amountOut assetIn amountIn st _ _
             (valueInUSD_eval cfg _ _ _) (valueInUSD_eval cfg _ _ _)).
  destruct (isUSDStable cfg assetIn) eqn:Sin, (isUSDStable cfg assetOut) eqn:Sout;
    try done.
  destruct (isPricingAsset cfg assetIn), (isPricingAsset cfg assetOut); simpl; try done.
  all: f_equal; unfold BD_div, BD_plus; rewrite (Qcplus_comm _ _); f_equal.
  all: by rewrite andb_comm.
Qed.

(** ** The price of the pool's own share token *)

Lemma set_tokens_twice (f g : gmap string Token → gmap string Token) (st : Store) :
  set_tokens f (set_tokens g st) = set_tokens (λ m, f (g m)) st.
Proof. by destruct st. Qed.

Lemma insert_withToken (id : string) (t : Token) (m : gmap string Token) :
  <[id := t]> (withToken id m) = <[id := t]> m.
Proof.
  unfold withToken. destruct (m !! id); [done|]. apply insert_insert_eq.
Qed.

(** [updateBptPrice], exactly. *)
Lemma updateBptPrice_exact (pool : Pool) (st : Store) :
  updateBptPrice pool st =
    Some (tt,
          if bool_decide (totalShares pool = ZERO_BD) then st
          else set_tokens
                 <[toHexString (address pool) :=
                     mkToken (Some (BD_div (totalLiquidity pool) (totalShares pool)))
                             (tokens st !! toHexString (address pool) ≫= latestPrice)]>
                 st).
Proof.
  unfold updateBptPrice, BD_equals. case_bool_decide; [done|].
  unfold bind, Token_save, modify. rewrite getToken_exact, set_tokens_twice.
  do 2 f_equal. destruct st as [p pt t lp phl b bs ps]. unfold set_tokens. simpl.
  f_equal. rewrite insert_withToken. by destruct (t !! toHexString (address pool)).
Qed.

(** ** Latest prices, continued *)

(** [updateLatestPrice], exactly: the LatestPrice record is saved, the Tokens
    of the asset and (unless it is USD-stable) of the pricing asset are
    created when absent, and the Token of the asset is saved with the new
    price and reference. *)
Lemma updateLatestPrice_exact (tokenPrice : TokenPrice) (st : Store) :
  let id := getLatestPriceId (tp_asset tokenPrice) (tp_pricingAsset tokenPrice) in
  let record :=
    mkLatestPrice (fieldsAtCreation st tokenPrice).1 (fieldsAtCreation st tokenPrice).2
      (tp_block tokenPrice) (tp_poolId tokenPrice) (tp_price tokenPrice) in
  let usd :=
    if isUSDStable cfg (tp_pricingAsset tokenPrice) then tp_price tokenPrice
    else match recordedUSDPrice st (tp_pricingAsset tokenPrice) with
         | Some price => BD_times (tp_price tokenPrice) price
         | None => ZERO_BD
         end in
  updateLatestPrice cfg tokenPrice st =
    Some (tt,
          set_tokens
            (λ m, <[toHexString (tp_asset tokenPrice) := mkToken (Some usd) (Some id)]>
                    (if isUSDStable cfg (tp_pricingAsset tokenPrice) then m
                     else withToken (toHexString (tp_pricingAsset tokenPrice)) m))
            (set_latestPrices <[id := record]> st)).
Proof.
  intros id record usd.
  unfold updateLatestPrice, LatestPrice_load, LatestPrice_save, Token_save,
    bind, gets, modify. fold id.
  rewrite getToken_exact, valueInUSD_exact.
  assert (recordedUSDPrice
            (set_tokens (withToken (toHexString (tp_asset tokenPrice)))
               (set_latestPrices
                  <[id := mkLatestPrice
                            match latestPrices st !! id with
                            | Some latestPrice => lp_asset latestPrice
                            | None => tp_asset tokenPrice
                            end
                            match latestPrices st !! id with
                            | Some latestPrice => lp_pricingAsset latestPrice
                            | None => tp_pricingAsset tokenPrice
                            end (tp_block tokenPrice) (tp_poolId tokenPrice)
                            (tp_price tokenPrice)]> st))
            (tp_pricingAsset tokenPrice)
          = recordedUSDPrice st (tp_pricingAsset tokenPrice)) as ->.
  { unfold recordedUSDPrice. simpl. apply withToken_price. }
  fold usd. do 2 f_equal.
  assert (mkLatestPrice
            match latestPrices st !! id with
            | Some latestPrice => lp_asset latestPrice
            | None => tp_asset tokenPrice
            end
            match latestPrices st !! id with
            | Some latestPrice => lp_pricingAsset latestPrice
            | None => tp_pricingAsset tokenPrice
            end (tp_block tokenPrice) (tp_poolId tokenPrice) (tp_price tokenPrice)
          = record) as ->.
  { subst record. unfold fieldsAtCreation. fold id. by destruct (latestPrices st !! id). }
  destruct (isUSDStable cfg (tp_pricingAsset tokenPrice));
    rewrite ?set_tokens_twice; destruct st as [p pt t lp phl b bs ps];
    unfold set_tokens, set_latestPrices; simpl; f_equal.
  - apply insert_withToken.
  - apply map_eq. intros k. destruct (decide (toHexString (tp_asset tokenPrice) = k)) as [<-|Hk].
    + by rewrite !lookup_insert_eq.
    + rewrite !lookup_insert_ne by done. rewrite !withToken_lookup.
      case_decide; [|case_decide; done]. subst k.
      rewrite decide_False by done. done.
Qed.

(** X10. [updateLatestPrice] writes one LatestPrice id and one Token: every
    other LatestPrice id, the record of every other stored Token, the
    recorded price of every other asset, and every Pool, PoolToken,
    PoolHistoricalLiquidity, Balancer and snapshot entity are as before. *)
Theorem updateLatestPrice_frame (tokenPrice : TokenPrice) (st : Store) :
  ∃ st',
    updateLatestPrice cfg tokenPrice st = Some (tt, st') ∧
    pools st' = pools st ∧ poolTokens st' = poolTokens st ∧
    poolHistoricalLiquidities st' = poolHistoricalLiquidities st ∧
    balancers st' = balancers st ∧ balancerSnapshots st' = balancerSnapshots st ∧
    poolSnapshots st' = poolSnapshots st ∧
    (∀ id, id ≠ getLatestPriceId (tp_asset tokenPrice) (tp_pricingAsset tokenPrice) →
           latestPrices st' !! id = latestPrices st !! id) ∧
    (∀ asset, asset ≠ tp_asset tokenPrice →
       recordedUSDPrice st' asset = recordedUSDPrice st asset ∧
       (is_Some (tokens st !! toHexString asset) →
        tokens st' !! toHexString asset = tokens st !! toHexString asset)).
Proof.
  pose proof (updateLatestPrice_exact tokenPrice st) as Hrun. simpl in Hrun.
  eexists. split; [exact Hrun|]. simpl.
  do 6 (split; [done|]). split.
  - intros id Hid. by rewrite lookup_insert_ne.
  - intros asset Hasset.
    assert (toHexString (tp_asset tokenPrice) ≠ toHexString asset) as Hne
      by (intros H; apply Hasset; symmetry; by apply toHexString_inj).
    unfold recordedUSDPrice. simpl. rewrite !lookup_insert_ne by done.
    destruct (isUSDStable cfg (tp_pricingAsset tokenPrice)); [done|].
    split; [apply withToken_price|]. intros [t Ht].
    etrans; [apply withToken_lookup|]. case_decide as Hk; [|done]. rewrite Hk. by rewrite Ht.
Qed.

(** X11. After [updateLatestPrice] the observed asset is worth, per unit,
    the observed price valued in USD through the pricing asset:
    [valueInUSD (x, asset)] is [x] times [valueInUSD (price, pricingAsset)]
    as it was before the call (and [x] itself for a USD-stable asset). *)
Theorem updateLatestPrice_then_valueInUSD (tokenPrice : TokenPrice) (st : Store) :
  ∃ st' usd,
    updateLatestPrice cfg tokenPrice st = Some (tt, st') ∧
    eval (valueInUSD cfg (tp_price tokenPrice) (tp_pricingAsset tokenPrice)) st = Some usd ∧
    ∀ x, eval (valueInUSD cfg x (tp_asset tokenPrice)) st' =
           Some (if isUSDStable cfg (tp_asset tokenPrice) then x else BD_times x usd).
Proof.
  pose proof (updateLatestPrice_exact tokenPrice st) as Hrun. simpl in Hrun.
  eexists _, _. split; [exact Hrun|]. split; [apply valueInUSD_eval|].
  intros x. rewrite valueInUSD_eval. unfold recordedUSDPrice at 1. simpl.
  rewrite lookup_insert_eq. simpl.
  by destruct (recordedUSDPrice st (tp_pricingAsset tokenPrice)).
Qed.

(** X12. Delivering the same observation a second time changes nothing,
    provided the asset is not its own pricing asset or the pricing asset is
    USD-stable: the store after the second call is the store after the
    first. *)
Theorem updateLatestPrice_idempotent (tokenPrice : TokenPrice) (st : Store) :
  tp_asset tokenPrice ≠ tp_pricingAsset tokenPrice ∨
  isUSDStable cfg (tp_pricingAsset tokenPrice) = true →
  ∃ st1,
    updateLatestPrice cfg tokenPrice st = Some (tt, st1) ∧
    updateLatestPrice cfg tokenPrice st1 = Some (tt, st1).
Proof.
  intros Hcase.
  pose proof (updateLatestPrice_exact tokenPrice st) as Hrun. simpl in Hrun.
  eexists. split; [exact Hrun|].
  match type of Hrun with _ = Some (_, ?s) => set (st1 := s) end.
  rewrite (updateLatestPrice_exact tokenPrice st1). simpl.
  set (id := getLatestPriceId (tp_asset tokenPrice) (tp_pricingAsset tokenPrice)).
  set (hexA := toHexString (tp_asset tokenPrice)).
  set (hexP := toHexString (tp_pricingAsset tokenPrice)).
  assert (fieldsAtCreation st1 tokenPrice = fieldsAtCreation st tokenPrice) as ->.
  { unfold fieldsAtCreation at 1. fold id. subst st1. simpl.
    rewrite lookup_insert_eq. simpl. by destruct (fieldsAtCreation st tokenPrice). }
  destruct (isUSDStable cfg (tp_pricingAsset tokenPrice)) eqn:Hs.
  - do 2 f_equal. subst st1. apply Store_eq; try done; simpl.
    + by rewrite insert_insert_eq.
    + by rewrite insert_insert_eq.
  - destruct Hcase as [Hne|]; [|congruence].
    assert (hexA ≠ hexP) as Hhex by (intros H; by apply Hne, toHexString_inj).
    assert (recordedUSDPrice st1 (tp_pricingAsset tokenPrice)
            = recordedUSDPrice st (tp_pricingAsset tokenPrice)) as ->.
    { unfold recordedUSDPrice. subst st1. simpl. fold hexP.
      rewrite lookup_insert_ne by done. apply withToken_price. }
    do 2 f_equal. subst st1. apply Store_eq; try done; simpl.
    + fold hexA hexP id. rewrite (withToken_id hexP (<[hexA:=_]> _)).
      * by rewrite insert_insert_eq.
      * rewrite lookup_insert_ne, withToken_lookup, decide_True by done. by eexists.
    + by rewrite insert_insert_eq.
Qed.

End Valuation.

(** ** Pool liquidity, continued *)

Section PoolLiquidity.

Context (cfg : Config).

Ltac bd_ring := unfold BigDecimal in *; ring.

(** The commit path of [updatePoolLiquidity], entity map by entity map;
    [sA] is the store after the loop. *)
Lemma updatePoolLiquidity_commit_full poolId block timestamp st pool stable0 vault :
  pools st !! poolId = Some pool →
  (2 ≤ length (tokensList pool))%nat →
  USD_STABLE_ASSETS cfg !! 0%nat = Some stable0 →
  balancers st !! "2" = Some vault →
  let newTotal := accumulatedValue cfg st poolId pool in
  let newVault := (vault_totalLiquidity vault + (newTotal - totalLiquidity pool))%Qc in
  let bpt := toHexString (address pool) in
  let bucket := balancerSnapshotId cfg "2" timestamp in
  ∃ sA st',
    freshTokensOnly st sA ∧
    updatePoolLiquidity cfg poolId block timestamp st = Some (true, st') ∧
    pools st' = <[poolId := committedPool pool newTotal]> (pools st) ∧
    poolHistoricalLiquidities st' =
      <[getPoolHistoricalLiquidityId poolId stable0 block :=
          committedRow poolId stable0 block pool newTotal]>
        (poolHistoricalLiquidities st) ∧
    balancers st' = <["2" := mkBalancer newVault]> (balancers st) ∧
    poolTokens st' = poolTokens st ∧
    latestPrices st' = latestPrices st ∧
    tokens st' =
      (if bool_decide (totalShares pool = ZERO_BD) then tokens sA
       else <[bpt := mkToken (Some (BD_div newTotal (totalShares pool)))
                             (tokens sA !! bpt ≫= latestPrice)]> (tokens sA)) ∧
    balancerSnapshots st' =
      <[bucket := mkBalancerSnapshot
                    (default "2" (bs_vault <$> balancerSnapshots st !! bucket)) newVault]>
        (balancerSnapshots st).
Proof.
  intros Hpool Hlen Hstable Hvault newTotal newVault bpt bucket.
  unfold updatePoolLiquidity, Pool_load, bind, gets, ret. simpl. rewrite Hpool.
  destruct (Nat.ltb_spec (length (tokensList pool)) 2) as [|_]; [lia|].
  destruct (accumulate_run cfg poolId pool (tokensList pool) ZERO_BD st) as (sA & -> & Hf).
  fold (accumulatedValue cfg st poolId pool). fold newTotal.
  rewrite eqb_reflx. simpl. unfold firstUSDStable. rewrite Hstable.
  unfold PoolHistoricalLiquidity_save, Pool_save, modify, ret. simpl.
  rewrite updateBptPrice_exact. simpl.
  unfold createPoolSnapshot, loadVault, Balancer_load, bind, gets, ret. simpl.
  exists sA.
  pose proof (fto_pools _ _ Hf) as Hp. pose proof (fto_phls _ _ Hf) as Hh.
  pose proof (fto_balancers _ _ Hf) as Hb. pose proof (fto_poolTokens _ _ Hf) as Hpt.
  pose proof (fto_latestPrices _ _ Hf) as Hlp.
  pose proof (fto_balancerSnapshots _ _ Hf) as Hbs.
  case_bool_decide as Hshares; simpl; rewrite Hb, Hvault;
    unfold Balancer_save, getBalancerSnapshot, BalancerSnapshot_load, BalancerSnapshot_save,
      bind, gets, modify, ret; simpl; rewrite Hbs; fold bucket;
    destruct (balancerSnapshots st !! bucket) as [snapshot|]; simpl;
    (eexists; split; [done|]; split; [reflexivity|]); simpl;
    rewrite ?Hp, ?Hh, ?Hb, ?Hpt, ?Hlp, ?Hbs, ?insert_insert_eq;
    repeat split; done.
Qed.

(** X16. A token without a balance record, and the pool's own share token
    under virtual supply, whatever its balance and price, leave the running
    total as it is. *)
Theorem accumulateToken_skips poolId pool total tokenAddress st :
  poolTokens st !! (poolId, toHexString tokenAddress) = None ∨
  (hasVirtualSupply cfg pool = true ∧ address pool = tokenAddress) →
  eval (accumulateToken cfg poolId pool total tokenAddress) st = Some total.
Proof.
  intros Hskip.
  destruct (accumulateToken_run cfg poolId pool total tokenAddress st) as (st' & Hrun & _).
  unfold eval. rewrite Hrun. simpl. f_equal.
  assert (addedValue cfg st poolId pool tokenAddress = ZERO_BD) as ->.
  { unfold addedValue. destruct Hskip as [->|[Hv ->]]; [done|].
    rewrite Hv. unfold Address_eq. rewrite bool_decide_eq_true_2 by done. simpl.
    by destruct (poolTokens st !! _), (recordedUSDPrice st tokenAddress). }
  unfold BD_plus, ZERO_BD. bd_ring.
Qed.

(** X17. With balances and recorded prices that are not negative, the loop
    never lowers the running total: the new total of a pool is not
    negative. *)
Theorem accumulate_nonnegative poolId pool (l : list Bytes) (total : BigDecimal) st :
  map_Forall (λ _ poolToken, (0 ≤ balance poolToken)%Qc) (poolTokens st) →
  map_Forall (λ _ token, ∀ price, latestUSDPrice token = Some price → (0 ≤ price)%Qc)
             (tokens st) →
  ∃ newTotal,
    eval (accumulate cfg poolId pool l total) st = Some newTotal ∧
    (total ≤ newTotal)%Qc.
Proof.
  intros Hbalances Hprices.
  destruct (accumulate_run cfg poolId pool l total st) as (st' & Hrun & _).
  unfold eval. rewrite Hrun. simpl. eexists. split; [done|].
  assert (∀ t, (0 ≤ addedValue cfg st poolId pool t)%Qc) as Hadded.
  { intros t. unfold addedValue, recordedUSDPrice, ZERO_BD, BD_times.
    destruct (poolTokens st !! (poolId, toHexString t)) as [pt|] eqn:Hpt; [|done].
    destruct (tokens st !! toHexString t) as [tok|] eqn:Htok; simpl; [|done].
    destruct (latestUSDPrice tok) as [price|] eqn:Hprice; [|done].
    destruct (hasVirtualSupply cfg pool && Address_eq (address pool) t); [done|].
    apply Qcmult_nonneg_nonneg.
    - by apply (Hprices _ _ Htok).
    - by apply (Hbalances _ _ Hpt). }
  clear Hrun. revert total. induction l as [|t l IH]; intros total; simpl; [done|].
  etrans; [|apply IH]. unfold BD_plus.
  rewrite <- (Qcplus_0_r total) at 1. apply Qcplus_le_mono_l, Hadded.
Qed.

(** A call that returns true ran on the commit path. *)
Lemma updatePoolLiquidity_true_cases poolId block timestamp st st' :
  updatePoolLiquidity cfg poolId block timestamp st = Some (true, st') →
  ∃ pool stable0 vault,
    pools st !! poolId = Some pool ∧ (2 ≤ length (tokensList pool))%nat ∧
    USD_STABLE_ASSETS cfg !! 0%nat = Some stable0 ∧ balancers st !! "2" = Some vault.
Proof.
  intros Hret. pose proof (updatePoolLiquidity_run cfg poolId block timestamp st) as Hrun.
  destruct (pools st !! poolId) as [pool|]; [|congruence].
  destruct (Nat.ltb_spec (length (tokensList pool)) 2); [congruence|].
  destruct (USD_STABLE_ASSETS cfg !! 0%nat) as [stable0|]; [|congruence].
  destruct (balancers st !! "2") as [vault|]; [|congruence].
  by exists pool, stable0, vault.
Qed.

(** A call that returns false changed nothing. *)
Lemma updatePoolLiquidity_false_store poolId block timestamp st st' :
  updatePoolLiquidity cfg poolId block timestamp st = Some (false, st') → st' = st.
Proof.
  intros Hret. pose proof (updatePoolLiquidity_run cfg poolId block timestamp st) as Hrun.
  destruct (pools st !! poolId) as [pool|]; [|congruence].
  destruct (Nat.ltb_spec (length (tokensList pool)) 2); [congruence|].
  destruct (USD_STABLE_ASSETS cfg !! 0%nat) as [stable0|]; [|congruence].
  destruct (balancers st !! "2") as [vault|]; [|congruence].
  destruct Hrun as (st'' & Hrun & _). congruence.
Qed.

(** X18. Whatever it returns, [updatePoolLiquidity] never writes a
    PoolToken or a LatestPrice, leaves every other Pool as it is, keeps the
    valued pool's [tokensList], [totalShares], [address] and [poolType],
    and changes the recorded price of no asset other than the pool's own
    share token. *)
Theorem updatePoolLiquidity_frame poolId block timestamp st result st' :
  updatePoolLiquidity cfg poolId block timestamp st = Some (result, st') →
  poolTokens st' = poolTokens st ∧
  latestPrices st' = latestPrices st ∧
  (∀ id, id ≠ poolId → pools st' !! id = pools st !! id) ∧
  (∀ pool, pools st !! poolId = Some pool →
     ∃ pool', pools st' !! poolId = Some pool' ∧
       tokensList pool' = tokensList pool ∧ totalShares pool' = totalShares pool ∧
       address pool' = address pool ∧ poolType pool' = poolType pool ∧
       ∀ asset, asset ≠ address pool →
         recordedUSDPrice st' asset = recordedUSDPrice st asset).
Proof.
  intros Hret. destruct result.
  - destruct (updatePoolLiquidity_true_cases _ _ _ _ _ Hret)
      as (pool & stable0 & vault & Hpool & Hlen & Hstable & Hvault).
    destruct (updatePoolLiquidity_commit_full poolId block timestamp st pool stable0 vault
                Hpool Hlen Hstable Hvault)
      as (sA & st'' & Hf & Hrun & Hpools & _ & _ & Hpt & Hlp & Htokens & _).
    assert (st'' = st') as -> by congruence.
    split; [done|]. split; [done|]. split.
    + intros id Hid. by rewrite Hpools, lookup_insert_ne.
    + intros pool0 Hpool0. assert (pool0 = pool) as -> by congruence.
      eexists. split; [by rewrite Hpools, lookup_insert_eq|].
      do 4 (split; [done|]). intros asset Hasset.
      rewrite <- (recordedUSDPrice_fresh st sA asset Hf).
      unfold recordedUSDPrice. rewrite Htokens.
      case_bool_decide; [done|]. rewrite lookup_insert_ne; [done|].
      intros Hhex. apply Hasset. symmetry. by apply toHexString_inj.
  - apply updatePoolLiquidity_false_store in Hret as ->.
    split; [done|]. split; [done|]. split; [done|].
    intros pool Hpool. by exists pool.
Qed.

(** X19. After a committed call the vault snapshot of the timestamp's
    bucket carries the Balancer singleton's new [totalLiquidity]. *)
Theorem updatePoolLiquidity_snapshot_mirrors_vault poolId block timestamp st st' :
  updatePoolLiquidity cfg poolId block timestamp st = Some (true, st') →
  ∃ vault snapshot,
    balancers st' !! "2" = Some vault ∧
    balancerSnapshots st' !! balancerSnapshotId cfg "2" timestamp = Some snapshot ∧
    bs_totalLiquidity snapshot = vault_totalLiquidity vault.
Proof.
  intros Hret.
  destruct (updatePoolLiquidity_true_cases _ _ _ _ _ Hret)
    as (pool & stable0 & vault & Hpool & Hlen & Hstable & Hvault).
  destruct (updatePoolLiquidity_commit_full poolId block timestamp st pool stable0 vault
              Hpool Hlen Hstable Hvault)
    as (sA & st'' & _ & Hrun & _ & _ & Hbal & _ & _ & _ & Hsnap).
  assert (st'' = st') as -> by congruence.
  eexists _, _. rewrite Hbal, Hsnap, !lookup_insert_eq. done.
Qed.

(** X20. After a committed call on a pool with shares, the recorded price
    of the pool's own share token is the new total divided by
    [totalShares]; for positive [totalShares] that is the [poolShareValue]
    of the snapshot row.  For a pool without shares the recorded price of
    its share token is as before. *)
Theorem updatePoolLiquidity_share_price
    poolId block timestamp st pool stable0 vault :
  pools st !! poolId = Some pool →
  (2 ≤ length (tokensList pool))%nat →
  USD_STABLE_ASSETS cfg !! 0%nat = Some stable0 →
  balancers st !! "2" = Some vault →
  ∃ newTotal st' row,
    eval (accumulate cfg poolId pool (tokensList pool) ZERO_BD) st = Some newTotal ∧
    updatePoolLiquidity cfg poolId block timestamp st = Some (true, st') ∧
    poolHistoricalLiquidities st' !! getPoolHistoricalLiquidityId poolId stable0 block
      = Some row ∧
    recordedUSDPrice st' (address pool) =
      (if bool_decide (totalShares pool = ZERO_BD) then recordedUSDPrice st (address pool)
       else Some (BD_div newTotal (totalShares pool))) ∧
    (BD_gt (totalShares pool) ZERO_BD = true →
     recordedUSDPrice st' (address pool) = Some (poolShareValue row)).
Proof.
  intros Hpool Hlen Hstable Hvault.
  destruct (updatePoolLiquidity_commit_full poolId block timestamp st pool stable0 vault
              Hpool Hlen Hstable Hvault)
    as (sA & st' & Hf & Hrun & _ & Hphl & _ & _ & _ & Htokens & _).
  exists (accumulatedValue cfg st poolId pool), st'. eexists.
  split; [apply accumulate_eval|]. split; [done|].
  split; [by rewrite Hphl, lookup_insert_eq|].
  assert (recordedUSDPrice st' (address pool) =
          (if bool_decide (totalShares pool = ZERO_BD) then recordedUSDPrice st (address pool)
           else Some (BD_div (accumulatedValue cfg st poolId pool) (totalShares pool))))
    as Hprice.
  { unfold recordedUSDPrice at 1. rewrite Htokens. case_bool_decide.
    - apply (recordedUSDPrice_fresh st sA _ Hf).
    - by rewrite lookup_insert_eq. }
  split; [done|]. intros Hpos. rewrite Hprice. simpl.
  unfold BD_gt, ZERO_BD in Hpos. rewrite Hpos.
  apply bool_decide_eq_true_1 in Hpos.
  rewrite bool_decide_eq_false_2; [done|].
  intros Hzero. rewrite Hzero in Hpos. by apply Qclt_not_eq in Hpos.
Qed.

Lemma foldl_members {A B} (f g : A → B → A) (a : A) (l : list B) :
  (∀ x y, y ∈ l → f x y = g x y) → foldl f a l = foldl g a l.
Proof.
  revert a. induction l as [|y l IH]; intros a Hfg; simpl; [done|].
  rewrite Hfg by (by left). apply IH. intros x z Hz. apply Hfg. by right.
Qed.

(** X22. A second call for the same pool right after a committed one, for
    a pool whose own address is not among its listed tokens, commits a
    change of zero: it returns true and leaves the Pool entities and the
    Balancer singleton as the first call left them (and, for the same
    block, the snapshot rows as well). *)
Theorem updatePoolLiquidity_again
    poolId block timestamp block' timestamp' st st1 pool :
  pools st !! poolId = Some pool →
  address pool ∉ tokensList pool →
  updatePoolLiquidity cfg poolId block timestamp st = Some (true, st1) →
  ∃ st2,
    updatePoolLiquidity cfg poolId block' timestamp' st1 = Some (true, st2) ∧
    pools st2 = pools st1 ∧
    balancers st2 = balancers st1 ∧
    (block' = block → poolHistoricalLiquidities st2 = poolHistoricalLiquidities st1).
Proof.
  intros Hpool Hown Hret.
  destruct (updatePoolLiquidity_true_cases _ _ _ _ _ Hret)
    as (pool0 & stable0 & vault & Hpool0 & Hlen & Hstable & Hvault).
  assert (pool0 = pool) as -> by congruence.
  destruct (updatePoolLiquidity_commit_full poolId block timestamp st pool stable0 vault
              Hpool Hlen Hstable Hvault)
    as (sA & st'' & Hf & Hrun & Hpools & Hphl & Hbal & Hpt & _ & Htokens & _).
  assert (st'' = st1) as -> by congruence.
  set (newTotal := accumulatedValue cfg st poolId pool) in *.
  assert (accumulatedValue cfg st1 poolId (committedPool pool newTotal) = newTotal) as Hsame.
  { unfold newTotal, accumulatedValue. simpl. apply foldl_members.
    intros total t Ht. f_equal. unfold addedValue. simpl. rewrite Hpt.
    assert (t ≠ address pool) as Hne by (intros ->; done).
    assert (recordedUSDPrice st1 t = recordedUSDPrice st t) as ->.
    { rewrite <- (recordedUSDPrice_fresh st sA t Hf).
      unfold recordedUSDPrice. rewrite Htokens. case_bool_decide; [done|].
      rewrite lookup_insert_ne; [done|]. intros Hhex. by apply Hne, toHexString_inj. }
    unfold Address_eq. rewrite !(bool_decide_eq_false_2 (address pool = t)) by done.
    by rewrite !andb_false_r. }
  destruct (updatePoolLiquidity_commit_full poolId block' timestamp' st1
              (committedPool pool newTotal) stable0 _
              ltac:(by rewrite Hpools, lookup_insert_eq) Hlen Hstable
              ltac:(by rewrite Hbal, lookup_insert_eq))
    as (sB & st2 & _ & Hrun2 & Hpools2 & Hphl2 & Hbal2 & _).
  rewrite Hsame in Hpools2, Hphl2, Hbal2. simpl in Hbal2.
  exists st2. split; [done|]. split; [|split].
  - rewrite Hpools2. apply insert_id. by rewrite Hpools, lookup_insert_eq.
  - rewrite Hbal2. apply insert_id. rewrite Hbal, lookup_insert_eq. do 2 f_equal.
    bd_ring.
  - intros ->. rewrite Hphl2. apply insert_id. by rewrite Hphl, lookup_insert_eq.
Qed.

End PoolLiquidity.

(** ** The price of the pool's own share token, continued *)

Section ShareToken.

Context (cfg : Config).

(** X8. [updateBptPrice] leaves the store as it is for a pool without
    shares (no Token is loaded or created).  For a pool with shares and a
    well-formed address it returns, and afterwards the Token of the pool's
    own address has [totalLiquidity / totalShares] as its [latestUSDPrice]
    and the [latestPrice] reference it had before (none for a Token that is
    created), every other Token is as before, and so is every entity that is
    not a Token. *)
Theorem updateBptPrice_spec (pool : Pool) (st : Store) :
  (totalShares pool = ZERO_BD → updateBptPrice pool st = Some (tt, st)) ∧
  (totalShares pool ≠ ZERO_BD → isAddress (address pool) →
   ∃ st',
     updateBptPrice pool st = Some (tt, st') ∧
     tokens st' !! toHexString (address pool) =
       Some (mkToken (Some (BD_div (totalLiquidity pool) (totalShares pool)))
                     (tokens st !! toHexString (address pool) ≫= latestPrice)) ∧
     (∀ id, id ≠ toHexString (address pool) → tokens st' !! id = tokens st !! id) ∧
     sameButTokens st st').
Proof.
  rewrite updateBptPrice_exact. split.
  - intros Hzero. by rewrite bool_decide_eq_true_2.
  - intros Hshares _. rewrite bool_decide_eq_false_2 by done.
    eexists. split; [reflexivity|]. simpl.
    split; [apply lookup_insert_eq|]. split; [|by split].
    intros id Hid. by rewrite lookup_insert_ne.
Qed.

(** X9. After [updateBptPrice] on a pool with shares whose own address is
    well-formed and not USD-stable, the share token is priced:
    [valueInUSD (x, pool.address)] is [x.times (totalLiquidity.div
    (totalShares))] for every amount [x]. *)
Theorem updateBptPrice_prices_shares (pool : Pool) (st : Store) :
  totalShares pool ≠ ZERO_BD →
  isAddress (address pool) →
  isUSDStable cfg (address pool) = false →
  ∃ st',
    updateBptPrice pool st = Some (tt, st') ∧
    ∀ x, eval (valueInUSD cfg x (address pool)) st'
           = Some (BD_times x (BD_div (totalLiquidity pool) (totalShares pool))).
Proof.
  intros Hshares _ Hstable. rewrite updateBptPrice_exact.
  rewrite bool_decide_eq_false_2 by done. eexists. split; [reflexivity|].
  intros x. rewrite valueInUSD_eval, Hstable. unfold recordedUSDPrice. simpl.
  by rewrite lookup_insert_eq.
Qed.

(** X13. On a store whose pool under [poolId] has well-formed addresses,
    [updatePoolLiquidity] traps exactly on its commit path, for a pool with
    at least two listed tokens, when [USD_STABLE_ASSETS] is empty or the
    Balancer singleton "2" is not stored; in every other case it returns. *)
Theorem updatePoolLiquidity_traps poolId block timestamp st :
  (∀ pool, pools st !! poolId = Some pool → wellFormedPool pool) →
  updatePoolLiquidity cfg poolId block timestamp st = None ↔
  ∃ pool,
    pools st !! poolId = Some pool ∧ (2 ≤ length (tokensList pool))%nat ∧
    (USD_STABLE_ASSETS cfg = [] ∨ balancers st !! "2" = None).
Proof.
  intros _.
  pose proof (updatePoolLiquidity_run cfg poolId block timestamp st) as Hrun.
  destruct (pools st !! poolId) as [pool|] eqn:Hpool.
  - destruct (Nat.ltb_spec (length (tokensList pool)) 2) as [Hlt|Hge].
    + rewrite Hrun. split; [done|]. intros (pool' & [= <-] & Hlen & _). lia.
    + destruct (USD_STABLE_ASSETS cfg) as [|stable0 rest] eqn:Hstable; simpl in Hrun.
      * split; [|done]. intros _. exists pool. by auto.
      * destruct (balancers st !! "2") as [vault|] eqn:Hvault.
        -- destruct Hrun as (st' & -> & _). split; [done|].
           intros (pool' & _ & _ & [?|?]); done.
        -- split; [|done]. intros _. exists pool. by auto.
  - rewrite Hrun. split; [done|]. by intros (pool & ? & _).
Qed.

End ShareToken.

(** ** The id of a snapshot row *)

Lemma string_app_assoc (s1 s2 s3 : string) :
  (s1 +:+ s2) +:+ s3 = s1 +:+ (s2 +:+ s3).
Proof. induction s1 as [|c s1 IH]; [done|]. by rewrite !append_String, IH. Qed.

(** X23. For one pool, [getPoolHistoricalLiquidityId] gives different ids
    to different (asset, block) pairs: the row of one block is never saved
    under the id of the row of another block. *)
Theorem getPoolHistoricalLiquidityId_distinct
    (poolId : string) (asset asset' : Address) (block block' : BigInt) :
  asset ≠ asset' ∨ block ≠ block' →
  getPoolHistoricalLiquidityId poolId asset block
    ≠ getPoolHistoricalLiquidityId poolId asset' block'.
Proof.
  intros Hdiff Hid. revert Hid.
  unfold getPoolHistoricalLiquidityId, toHexString.
  rewrite !string_app_assoc, !append_String, !append_empty.
  intros H%(inj (String.append poolId)). injection H as H.
  destruct (hexDigits_dash_inj _ _ _ _ H) as [Hasset Hblock].
  apply (inj pretty) in Hblock. by destruct Hdiff.
Qed.

(** ** The further properties on the concrete stores *)

Lemma getPreferentialPricingAsset_earliest_witness :
  getPreferentialPricingAsset exampleConfig [tokenA; stableAsset] = stableAsset.
Proof.
  apply (getPreferentialPricingAsset_earliest exampleConfig [tokenA; stableAsset]
           [wrappedNative] stableAsset []).
  - reflexivity.
  - compute_done.
  - intros q Hq. apply list_elem_of_singleton in Hq. subst q.
    compute_done.
Defined.

Lemma getPreferentialPricingAsset_members_witness :
  getPreferentialPricingAsset exampleConfig [tokenA; stableAsset] =
  getPreferentialPricingAsset exampleConfig [stableAsset; tokenA; tokenA].
Proof.
  apply (getPreferentialPricingAsset_members exampleConfig).
  intros a. rewrite !elem_of_cons, !elem_of_nil. tauto.
Defined.

Lemma swapValueInUSD_stable_side_witness :
  swapValueInUSD exampleConfig tokenA (BD_of_Z 3) stableAsset (BD_of_Z 7) exampleStore
    = Some (BD_of_Z 7, exampleStore).
Proof.
  apply (swapValueInUSD_stable_side exampleConfig tokenA (BD_of_Z 3) stableAsset
           (BD_of_Z 7) exampleStore).
  reflexivity.
Defined.

Lemma swapValueInUSD_symmetric_witness :
  eval (swapValueInUSD exampleConfig tokenA (BD_of_Z 10) tokenB (BD_of_Z 5)) exampleStore =
  eval (swapValueInUSD exampleConfig tokenB (BD_of_Z 5) tokenA (BD_of_Z 10)) exampleStore.
Proof.
  apply (swapValueInUSD_symmetric exampleConfig). reflexivity.
Defined.

Lemma updateLatestPrice_idempotent_witness :
  ∃ st1,
    updateLatestPrice exampleConfig exampleObservation exampleStore = Some (tt, st1) ∧
    updateLatestPrice exampleConfig exampleObservation st1 = Some (tt, st1).
Proof.
  apply (updateLatestPrice_idempotent exampleConfig exampleObservation exampleStore).
  left. discriminate.
Defined.

Lemma accumulateToken_skips_witness :
  eval (accumulateToken exampleConfig "p1" pool1 (BD_of_Z 20) tokenC) exampleStore
    = Some (BD_of_Z 20).
Proof.
  apply (accumulateToken_skips exampleConfig). left. reflexivity.
Defined.

Lemma accumulate_nonnegative_witness :
  ∃ newTotal,
    eval (accumulate exampleConfig "p1" pool1 [tokenA; tokenB] ZERO_BD) exampleStore
      = Some newTotal ∧
    (ZERO_BD ≤ newTotal)%Qc.
Proof.
  apply (accumulate_nonnegative exampleConfig "p1" pool1 [tokenA; tokenB] ZERO_BD
           exampleStore).
  - unfold exampleStore, examplePoolTokens. simpl.
    repeat (apply map_Forall_insert_2; [vm_compute; discriminate|]).
    apply map_Forall_empty.
  - unfold exampleStore. simpl.
    repeat (apply map_Forall_insert_2;
            [simpl; intros price [= <-]; vm_compute; discriminate|]).
    apply map_Forall_empty.
Defined.

Lemma updatePoolLiquidity_frame_witness :
  poolTokens afterP1 = poolTokens exampleStore ∧
  pools afterP1 !! "p2" = pools exampleStore !! "p2" ∧
  recordedUSDPrice afterP1 tokenA = recordedUSDPrice exampleStore tokenA.
Proof.
  destruct (updatePoolLiquidity_frame exampleConfig "p1" 7 100000 exampleStore true afterP1)
    as (Hpt & _ & Hother & Hpool).
  { vm_compute. reflexivity. }
  destruct (Hpool pool1 eq_refl) as (pool' & _ & _ & _ & _ & _ & Hprices).
  split; [exact Hpt|]. split; [apply Hother; discriminate|].
  apply Hprices. discriminate.
Defined.

Lemma updatePoolLiquidity_snapshot_mirrors_vault_witness :
  ∃ vault snapshot,
    balancers afterP1 !! "2" = Some vault ∧
    balancerSnapshots afterP1 !! balancerSnapshotId exampleConfig "2" 100000
      = Some snapshot ∧
    bs_totalLiquidity snapshot = vault_totalLiquidity vault.
Proof.
  apply (updatePoolLiquidity_snapshot_mirrors_vault exampleConfig "p1" 7 100000
           exampleStore afterP1).
  vm_compute. reflexivity.
Defined.

Lemma updatePoolLiquidity_share_price_witness :
  ∃ st' row,
    updatePoolLiquidity exampleConfig "p1" 7 100000 exampleStore = Some (true, st') ∧
    poolHistoricalLiquidities st' !! "p1-0x55-7" = Some row ∧
    recordedUSDPrice st' (address pool1) = Some (poolShareValue row).
Proof.
  destruct (updatePoolLiquidity_share_price exampleConfig "p1" 7 100000 exampleStore
              pool1 stableAsset (mkBalancer (BD_of_Z 100))
              eq_refl (le_n 2) eq_refl eq_refl)
    as (newTotal & st' & row & _ & Hrun & Hrow & _ & Hprice).
  exists st', row. split; [exact Hrun|]. split; [exact Hrow|].
  apply Hprice. reflexivity.
Defined.

Lemma updatePoolLiquidity_again_witness :
  ∃ st2,
    updatePoolLiquidity exampleConfig "p1" 9 200000 afterP1 = Some (true, st2) ∧
    pools st2 = pools afterP1 ∧
    balancers st2 = balancers afterP1 ∧
    (9 = 7 → poolHistoricalLiquidities st2 = poolHistoricalLiquidities afterP1).
Proof.
  apply (updatePoolLiquidity_again exampleConfig "p1" 7 100000 9 200000
           exampleStore afterP1 pool1).
  - reflexivity.
  - compute_done.
  - vm_compute. reflexivity.
Defined.

Lemma updateBptPrice_spec_witness :
  ∃ st',
    updateBptPrice widePool1 (widePricedStore (BD_of_Z 100)) = Some (tt, st') ∧
    tokens st' !! toHexString (address widePool1) =
      Some (mkToken (Some (BD_div (BD_of_Z 30) (BD_of_Z 20))) None) ∧
    tokens st' !! toHexString wideTokenA
      = tokens (widePricedStore (BD_of_Z 100)) !! toHexString wideTokenA.
Proof.
  destruct (updateBptPrice_spec widePool1 (widePricedStore (BD_of_Z 100))) as [_ Hshares].
  destruct Hshares as (st' & Hrun & Htoken & Hothers & _).
  - intros H. apply (f_equal this) in H. vm_compute in H. discriminate.
  - reflexivity.
  - exists st'. split; [exact Hrun|]. split; [exact Htoken|].
    apply Hothers. vm_compute. discriminate.
Defined.

Lemma updateBptPrice_prices_shares_witness :
  ∃ st',
    updateBptPrice widePool1 (widePricedStore (BD_of_Z 100)) = Some (tt, st') ∧
    ∀ x, eval (valueInUSD wideConfig x (address widePool1)) st'
           = Some (BD_times x (BD_div (BD_of_Z 30) (BD_of_Z 20))).
Proof.
  apply (updateBptPrice_prices_shares wideConfig widePool1 (widePricedStore (BD_of_Z 100))).
  - intros H. apply (f_equal this) in H. vm_compute in H. discriminate.
  - reflexivity.
  - reflexivity.
Defined.

Lemma updatePoolLiquidity_traps_witness :
  updatePoolLiquidity wideConfig "p1" 7 100000 wideStoreWithoutVault = None.
Proof.
  apply (updatePoolLiquidity_traps wideConfig "p1" 7 100000 wideStoreWithoutVault).
  - intros pool Hpool. vm_compute in Hpool. injection Hpool as <-.
    split; [repeat constructor | right; reflexivity].
  - exists widePoolAt40. split; [reflexivity|]. split; [apply le_n|]. right. reflexivity.
Defined.

Lemma getPoolHistoricalLiquidityId_distinct_witness :
  getPoolHistoricalLiquidityId "p1" wideStable 7
    ≠ getPoolHistoricalLiquidityId "p1" wideStable 8.
Proof.
  apply (getPoolHistoricalLiquidityId_distinct "p1" wideStable wideStable 7 8).
  right. discriminate.
Defined.
